(** * Semantic search notebook: the in-memory brute-force index

    Shallow embedding of the two pieces of executable search code of
    [MachineLearning/semantic_search/semantic_search.ipynb]:

    - the notebook-level function [find_most_similar], which ranks the
      global [doc_embeddings] against one of its own rows, and
    - the class [SimpleSemanticSearch] ([__init__], [index_documents],
      [search]).

    Three collaborators are third-party library calls and are kept
    abstract: [model.encode] (sentence-transformers), [util.pytorch_cos_sim]
    followed by [.item()] and [np.argsort].  They are gathered in the class
    [Collaborators]; what the proofs need from them is stated in separate
    law classes. *)

From Stdlib Require Import String Ascii.
From Stdlib Require Import List ZArith Bool Lia Sorted Permutation Arith.
Import ListNotations.
Local Open Scope Z_scope.

Set Implicit Arguments.

(** ** Python outcomes: a value or a raised exception *)

Inductive exn : Type :=
| EmbeddingError   (* whatever [model.encode] raises *)
| TypeError        (* iterating over [None] *)
| IndexError.      (* subscript out of range *)

Inductive outcome (A : Type) : Type :=
| Return (a : A)
| Raise (e : exn).

Arguments Return {A} a.
Arguments Raise {A} e.

Definition obind {A B} (c : outcome A) (k : A -> outcome B) : outcome B :=
  match c with
  | Return a => k a
  | Raise e => Raise e
  end.

Definition or_raise {A} (e : exn) (o : option A) : outcome A :=
  match o with
  | Some a => Return a
  | None => Raise e
  end.

(** A list comprehension [[f x for x in l]] whose body may raise: the
    first exception aborts the comprehension. *)
Fixpoint comprehension {A B} (f : A -> outcome B) (l : list A) : outcome (list B) :=
  match l with
  | [] => Return []
  | x :: r => obind (f x) (fun y => obind (comprehension f r) (fun ys => Return (y :: ys)))
  end.

(** ** State and exceptions

    A method body is a function from the object's state to an outcome and
    the state left behind; the state survives a raised exception, as the
    attributes of a Python object do. *)

Definition M (St A : Type) : Type := St -> outcome A * St.

Definition ret {St A} (a : A) : M St A := fun s => (Return a, s).

Definition bind {St A B} (c : M St A) (k : A -> M St B) : M St B :=
  fun s => match c s with
           | (Return a, s') => k a s'
           | (Raise e, s') => (Raise e, s')
           end.

Definition get {St} : M St St := fun s => (Return s, s).
Definition put {St} (s : St) : M St unit := fun _ => (Return tt, s).
Definition liftO {St A} (c : outcome A) : M St A := fun s => (c, s).

Declare Scope py_scope.
Delimit Scope py_scope with py.
Notation "x <- c ;; k" := (bind c (fun x => k))
  (at level 61, c at next level, right associativity) : py_scope.
Notation "c ;;; k" := (bind c (fun _ => k))
  (at level 61, right associativity) : py_scope.

(** ** Subscripts and slices *)

(** [l[i]] for a Python list or a numpy array and an integer [i]: a
    negative [i] counts from the end, anything outside [-len, len) raises
    [IndexError]. *)
Definition getitem {A} (l : list A) (i : Z) : outcome A :=
  let n := Z.of_nat (length l) in
  if (0 <=? i) && (i <? n) then or_raise IndexError (nth_error l (Z.to_nat i))
  else if (- n <=? i) && (i <? 0) then or_raise IndexError (nth_error l (Z.to_nat (n + i)))
  else Raise IndexError.

(** [l[:k]]: the first [k] items, or all but the last [-k] when [k] is
    negative. *)
Definition slice_to {A} (k : Z) (l : list A) : list A :=
  if 0 <=? k then firstn (Z.to_nat k) l
  else firstn (Z.to_nat (Z.of_nat (length l) + k)) l.

(** [l[::-1]] *)
Definition reversed {A} (l : list A) : list A := rev l.

(** ** The library collaborators *)

Class Collaborators : Type := {
  (** an embedding vector (a row of the array [model.encode] returns) *)
  Vec : Type;
  (** a similarity score (the Python float [.item()] yields) *)
  Score : Type;
  (** the order [np.argsort] sorts scores by: [sleb x y] is [x <= y] *)
  sleb : Score -> Score -> bool;
  (** [model.encode(text)] for one text; [None] when the model raises *)
  encode : string -> option Vec;
  (** [util.pytorch_cos_sim(a, b).item()] *)
  pytorch_cos_sim : Vec -> Vec -> Score;
  (** [np.argsort(scores)], as a list of positions *)
  argsort : list Score -> list nat
}.

(** [model.encode(documents)] on a list of texts: one row per text, in
    order; the call raises as soon as one text cannot be encoded. *)
Fixpoint encode_batch `{Collaborators} (docs : list string) : option (list Vec) :=
  match docs with
  | [] => Some []
  | d :: r =>
      match encode d with
      | None => None
      | Some v =>
          match encode_batch r with
          | None => None
          | Some vs => Some (v :: vs)
          end
      end
  end.

(** What numpy documents of [argsort]: the result lists every position
    once, and reading the scores in that order gives a non-decreasing
    sequence.  Which of two equal scores comes first is left open (the
    default kind is an unstable quicksort). *)
Class ArgsortSpec (C : Collaborators) : Prop := {
  argsort_perm : forall l : list Score, Permutation (argsort l) (seq 0 (length l));
  argsort_sorted : forall l : list Score,
      StronglySorted
        (fun i j => forall x y, nth_error l i = Some x -> nth_error l j = Some y ->
                                sleb x y = true)
        (argsort l)
}.

(** ** Notebook globals and [find_most_similar] *)

Record Notebook `{Collaborators} : Type := {
  nb_documents : list string;      (* the global [documents] *)
  doc_embeddings : list Vec        (* the global [doc_embeddings] *)
}.

Section Model.
Context `{C : Collaborators}.
Local Open Scope py_scope.

(** [similarities[idx]] paired with [idx], for the final comprehension of
    [find_most_similar]. *)
Definition index_with_score (similarities : list Score) (idx : nat)
  : outcome (nat * Score) :=
  obind (getitem similarities (Z.of_nat idx)) (fun sc => Return (idx, sc)).

Definition find_most_similar (doc_idx : Z) (top_k : Z)
  : M Notebook (list (nat * Score)) :=
  g <- get ;;
  query_embedding <- liftO (getitem (doc_embeddings g) doc_idx) ;;
  let similarities := map (pytorch_cos_sim query_embedding) (doc_embeddings g) in
  let sorted_indices := reversed (argsort similarities) in
  let top_indices :=
    slice_to top_k (filter (fun idx => negb (Z.of_nat idx =? doc_idx)) sorted_indices) in
  liftO (comprehension (index_with_score similarities) top_indices).

(** ** The class [SimpleSemanticSearch] *)

Record SimpleSemanticSearch : Type := {
  documents : list string;
  embeddings : option (list Vec)   (* [None] until [index_documents] has run *)
}.

(** [__init__] (the model handle is the [Collaborators] instance) *)
Definition init : SimpleSemanticSearch :=
  {| documents := []; embeddings := None |}.

Definition set_documents (d : list string) : M SimpleSemanticSearch unit :=
  self <- get ;; put {| documents := d; embeddings := embeddings self |}.

Definition set_embeddings (e : list Vec) : M SimpleSemanticSearch unit :=
  self <- get ;; put {| documents := documents self; embeddings := Some e |}.

Definition index_documents (docs : list string) : M SimpleSemanticSearch unit :=
  set_documents docs ;;;
  e <- liftO (or_raise EmbeddingError (encode_batch docs)) ;;
  set_embeddings e.

(** The indices [search] keeps: [np.argsort(similarities)[::-1][:top_k]]. *)
Definition top_indices (similarities : list Score) (top_k : Z) : list nat :=
  slice_to top_k (reversed (argsort similarities)).

Definition document_with_score (docs : list string) (similarities : list Score)
    (idx : nat) : outcome (string * Score) :=
  obind (getitem docs (Z.of_nat idx)) (fun d =>
  obind (getitem similarities (Z.of_nat idx)) (fun sc => Return (d, sc))).

Definition search (query : string) (top_k : Z)
  : M SimpleSemanticSearch (list (string * Score)) :=
  query_embedding <- liftO (or_raise EmbeddingError (encode query)) ;;
  self <- get ;;
  embs <- liftO (or_raise TypeError (embeddings self)) ;;
  let similarities := map (pytorch_cos_sim query_embedding) embs in
  liftO (comprehension (document_with_score (documents self) similarities)
                       (top_indices similarities top_k)).

(** ** Vocabulary of the statements *)

(** [higher sims i j]: position [i] does not score below position [j]. *)
Definition higher (sims : list Score) (i j : nat) : Prop :=
  forall x y, nth_error sims i = Some x -> nth_error sims j = Some y -> sleb y x = true.

(** A result sequence whose scores never increase from one pair to any
    later one. *)
Definition non_increasing {D : Type} (res : list (D * Score)) : Prop :=
  StronglySorted (fun r1 r2 => sleb (snd r2) (snd r1) = true) res.

(** The two tables of an index line up: one embedding per document.  The
    freshly constructed object, with no embeddings at all, holds no
    documents. *)
Definition tables_aligned (self : SimpleSemanticSearch) : Prop :=
  match embeddings self with
  | Some e => length e = length (documents self)
  | None => documents self = []
  end.


End Model.

(** The defaults of the two signatures: [top_k=3]. *)
Definition default_top_k : Z := 3.

(** ** A runnable set of collaborators

    One admissible [argsort]: the insertion sort numpy's scalar quicksort
    falls back to on short arrays.  A position moves left past the
    positions whose score is strictly greater, so equal scores keep their
    original order.  The sorted prefix is kept back to front. *)

Section InsertionArgsort.
Variable A : Type.
Variable leb : A -> A -> bool.

Definition score_lt (l : list A) (i j : nat) : bool :=
  match nth_error l i, nth_error l j with
  | Some x, Some y => negb (leb y x)
  | _, _ => false
  end.

Fixpoint shift_in (l : list A) (vi : nat) (racc : list nat) : list nat :=
  match racc with
  | [] => [vi]
  | pk :: r => if score_lt l vi pk then pk :: shift_in l vi r else vi :: pk :: r
  end.

Definition insertion_pass (l : list A) (positions : list nat) : list nat :=
  fold_left (fun racc vi => shift_in l vi racc) positions [].

Definition insertion_argsort (l : list A) : list nat :=
  rev (insertion_pass l (seq 0 (length l))).

End InsertionArgsort.

(** A stub embedder with one-dimensional vectors: in dimension one the
    cosine of two vectors is the product of their signs, and it is 0 when
    either vector is 0. *)
Module Stub.

Definition stub_encode (text : string) : option Z :=
  if String.eqb text "" then None
  else if String.eqb text "cat" then Some 2
  else if String.eqb text "kitten" then Some 5
  else if String.eqb text "dog" then Some (-1)
  else if String.eqb text "stone" then Some 0
  else Some 1.

Definition stub_cos_sim (a b : Z) : Z := Z.sgn a * Z.sgn b.

#[export] Instance stub : Collaborators := {|
  Vec := Z;
  Score := Z;
  sleb := Z.leb;
  encode := stub_encode;
  pytorch_cos_sim := stub_cos_sim;
  argsort := insertion_argsort Z.leb
|}.

(** A three-document corpus, the index built from it and the notebook
    globals holding the same embeddings. *)
Definition pets : list string := ["cat"; "kitten"; "dog"]%string.

Definition pets_index : SimpleSemanticSearch :=
  {| documents := pets; embeddings := Some [2; 5; -1] |}.

Definition strays : list string := ["stone"; "dog"]%string.

Definition strays_index : SimpleSemanticSearch :=
  {| documents := strays; embeddings := Some [0; -1] |}.

Definition pets_notebook : Notebook :=
  {| nb_documents := pets; doc_embeddings := [2; 5; -1] |}.

End Stub.

(** ** The rest of the notebook

    The cells around the two ranking functions: the similarity matrix of
    section 2, the document list and [document_similarity] of section 3,
    the example that prints the neighbours of an article, and the loop that
    tries the search engine on a list of queries. *)

(** An entry of [sample_articles]: a dict literal with the keys ["title"]
    and ["content"]. *)
Record Article : Type := {
  title : string;
  content : string
}.

(** [for x in l: s = body(s, x)] where the body may raise. *)
Fixpoint for_loop {A St} (body : St -> A -> outcome St) (l : list A) (s : St)
  : outcome St :=
  match l with
  | [] => Return s
  | x :: r => obind (body s x) (for_loop body r)
  end.

(** [[f(x) for x in l]] (or a [for] loop collecting what [f] yields) where
    [f] is a method: the state is threaded through the calls. *)
Fixpoint for_each {A B St} (f : A -> M St B) (l : list A) : M St (list B) :=
  match l with
  | [] => ret []
  | x :: r => bind (f x) (fun y => bind (for_each f r) (fun ys => ret (y :: ys)))
  end.

(** [l] with the item at position [i] replaced. *)
Fixpoint update {A} (i : nat) (x : A) (l : list A) : list A :=
  match l, i with
  | [], _ => []
  | _ :: r, O => x :: r
  | a :: r, S i' => a :: update i' x r
  end.

(** [m[i, j] = v] on a two-dimensional array, for indices that come from
    [range]: outside the array numpy raises [IndexError]. *)
Definition set_cell {A} (m : list (list A)) (i j : nat) (v : A)
  : outcome (list (list A)) :=
  match nth_error m i with
  | None => Raise IndexError
  | Some row =>
      if (j <? length row)%nat then Return (update i (update j v row) m)
      else Raise IndexError
  end.

(** [m[i, j]] read back. *)
Definition cell {A} (m : list (list A)) (i j : nat) : option A :=
  match nth_error m i with
  | None => None
  | Some row => nth_error row j
  end.

(** An [n] by [n] array. *)
Definition square {A} (n : nat) (m : list (list A)) : Prop :=
  length m = n /\ Forall (fun row => length row = n) m.

Section NotebookCode.
Context `{C : Collaborators}.
Local Open Scope py_scope.

(** Section 2: [similarity_matrix], filled cell by cell.  [zero] is the
    [0.0] of [np.zeros], [n] is [len(sentences)] and [embs] the global
    [embeddings]. *)
Definition matrix_row_loop (embs : list Vec) (n : nat) (i : nat)
    (m : list (list Score)) : outcome (list (list Score)) :=
  for_loop (fun m j =>
              obind (getitem embs (Z.of_nat i)) (fun ei =>
              obind (getitem embs (Z.of_nat j)) (fun ej =>
              set_cell m i j (pytorch_cos_sim ei ej))))
           (seq 0 n) m.

Definition similarity_matrix (zero : Score) (n : nat) (embs : list Vec)
  : outcome (list (list Score)) :=
  for_loop (fun m i => matrix_row_loop embs n i m)
           (seq 0 n) (repeat (repeat zero n) n).

(** Section 3: [documents], one ["title. content"] string appended per
    article. *)
Definition build_documents (sample_articles : list Article) : list string :=
  fold_left (fun documents article =>
               documents ++ [(title article ++ ". " ++ content article)%string])
            sample_articles [].

(** The globals after the cells of section 3 have run: [documents] and
    [doc_embeddings = model.encode(documents)]. *)
Definition load_notebook (sample_articles : list Article) : outcome Notebook :=
  let documents := build_documents sample_articles in
  obind (or_raise EmbeddingError (encode_batch documents)) (fun e =>
  Return {| nb_documents := documents; doc_embeddings := e |}).

Definition document_similarity (doc_idx1 doc_idx2 : Z) : M Notebook Score :=
  g <- get ;;
  emb1 <- liftO (getitem (doc_embeddings g) doc_idx1) ;;
  emb2 <- liftO (getitem (doc_embeddings g) doc_idx2) ;;
  ret (pytorch_cos_sim emb1 emb2).

(** The example below [find_most_similar]: the title of the example
    article, then the title and score of each of its neighbours.  The
    notebook runs it with [example_idx = 0]. *)
Definition example_usage (sample_articles : list Article) (example_idx : Z)
  : M Notebook (string * list (string * Score)) :=
  example <- liftO (getitem sample_articles example_idx) ;;
  similar_docs <- find_most_similar example_idx default_top_k ;;
  lines <- liftO (comprehension
                    (fun p : nat * Score =>
                       obind (getitem sample_articles (Z.of_nat (fst p))) (fun a =>
                       Return (title a, snd p)))
                    similar_docs) ;;
  ret (title example, lines).

(** Section 4: the loop over [test_queries], each searched with the
    default [top_k]. *)
Definition run_queries (test_queries : list string)
  : M SimpleSemanticSearch (list (list (string * Score))) :=
  for_each (fun query => search query default_top_k) test_queries.

(** [SimpleSemanticSearch()], [index_documents(documents)], then the loop. *)
Definition search_demo (docs test_queries : list string)
  : outcome (list (list (string * Score))) * SimpleSemanticSearch :=
  (index_documents docs ;;; run_queries test_queries) init.

End NotebookCode.

(** Three stub articles and the globals [load_notebook] builds from them. *)
Module StubData.
Import Stub.

Definition articles : list Article :=
  [ {| title := "Cats"; content := "cat" |};
    {| title := "Dogs"; content := "dog" |};
    {| title := "Stones"; content := "stone" |} ].

Definition articles_notebook : Notebook :=
  {| nb_documents := build_documents articles; doc_embeddings := [1; 1; 1] |}.

End StubData.

(** * Properties *)

Unset Implicit Arguments.

(** ** Lists, subscripts and comprehensions *)

Section ListFacts.
Context {A B : Type}.

Lemma getitem_nat (l : list A) (i : nat) :
  getitem l (Z.of_nat i) = or_raise IndexError (nth_error l i).
Proof.
  unfold getitem.
  destruct (lt_dec i (length l)) as [Hlt | Hge].
  - replace ((0 <=? Z.of_nat i) && (Z.of_nat i <? Z.of_nat (length l))) with true.
    + now rewrite Nat2Z.id.
    + symmetry. apply andb_true_iff. split; [apply Z.leb_le | apply Z.ltb_lt]; lia.
  - replace ((0 <=? Z.of_nat i) && (Z.of_nat i <? Z.of_nat (length l))) with false.
    + replace ((- Z.of_nat (length l) <=? Z.of_nat i) && (Z.of_nat i <? 0)) with false.
      * assert (Hnone : nth_error l i = None) by (apply nth_error_None; lia).
        now rewrite Hnone.
      * symmetry. apply andb_false_iff. right. apply Z.ltb_ge. lia.
    + symmetry. apply andb_false_iff. right. apply Z.ltb_ge. lia.
Qed.

Lemma getitem_out_of_range (l : list A) (i : Z) :
  Z.of_nat (length l) <= i \/ i < - Z.of_nat (length l) ->
  getitem l i = Raise IndexError.
Proof.
  intros Hi. unfold getitem.
  replace ((0 <=? i) && (i <? Z.of_nat (length l))) with false.
  - replace ((- Z.of_nat (length l) <=? i) && (i <? 0)) with false; [reflexivity |].
    symmetry. apply andb_false_iff.
    destruct Hi; [right; apply Z.ltb_ge | left; apply Z.leb_gt]; lia.
  - symmetry. apply andb_false_iff.
    destruct Hi; [right; apply Z.ltb_ge | left; apply Z.leb_gt]; lia.
Qed.

Lemma getitem_in_range (l : list A) (i : Z) :
  0 <= i < Z.of_nat (length l) ->
  exists x, getitem l i = Return x /\ nth_error l (Z.to_nat i) = Some x.
Proof.
  intros Hi. unfold getitem.
  replace ((0 <=? i) && (i <? Z.of_nat (length l))) with true.
  - destruct (nth_error l (Z.to_nat i)) as [x |] eqn:Hx.
    + exists x. split; reflexivity.
    + apply nth_error_None in Hx. lia.
  - symmetry. apply andb_true_iff. split; [apply Z.leb_le | apply Z.ltb_lt]; lia.
Qed.

Lemma slice_to_length (k : Z) (l : list A) :
  0 <= k -> Z.of_nat (length (slice_to k l)) = Z.min k (Z.of_nat (length l)).
Proof.
  intros Hk. unfold slice_to.
  replace (0 <=? k) with true by (symmetry; apply Z.leb_le; exact Hk).
  rewrite length_firstn. lia.
Qed.

Lemma firstn_incl (n : nat) (l : list A) (x : A) : In x (firstn n l) -> In x l.
Proof.
  intros Hin. rewrite <- (firstn_skipn n l). apply in_or_app. now left.
Qed.

Lemma slice_to_incl (k : Z) (l : list A) (x : A) : In x (slice_to k l) -> In x l.
Proof.
  unfold slice_to. destruct (0 <=? k); intros Hin; eapply firstn_incl; eassumption.
Qed.

Lemma comprehension_total (f : A -> outcome B) (l : list A) :
  (forall x, In x l -> exists y, f x = Return y) ->
  exists r, comprehension f l = Return r /\ Forall2 (fun x y => f x = Return y) l r.
Proof.
  induction l as [| x l IH]; intros Hf.
  - exists []. split; [reflexivity | constructor].
  - destruct (Hf x (or_introl eq_refl)) as [y Hy].
    destruct IH as [r [Hr Hall]].
    { intros z Hz. apply Hf. now right. }
    exists (y :: r). split.
    + simpl. rewrite Hy. simpl. rewrite Hr. reflexivity.
    + constructor; assumption.
Qed.

Lemma comprehension_returns (f : A -> outcome B) (l : list A) (r : list B) :
  comprehension f l = Return r -> Forall2 (fun x y => f x = Return y) l r.
Proof.
  revert r. induction l as [| x l IH]; intros r Hr; simpl in Hr.
  - injection Hr as <-. constructor.
  - destruct (f x) as [y |] eqn:Hy; [| discriminate]. simpl in Hr.
    destruct (comprehension f l) as [ys |]; [| discriminate]. simpl in Hr.
    injection Hr as <-. constructor; [assumption | now apply IH].
Qed.

Lemma Forall2_length_eq (P : A -> B -> Prop) (l : list A) (r : list B) :
  Forall2 P l r -> length r = length l.
Proof. induction 1; simpl; congruence. Qed.

Lemma Forall2_In_r (P : A -> B -> Prop) (l : list A) (r : list B) (y : B) :
  Forall2 P l r -> In y r -> exists x, In x l /\ P x y.
Proof.
  induction 1 as [| x y' l r Hxy Hall IH]; intros Hin; [contradiction |].
  destruct Hin as [-> | Hin].
  - exists x. split; [now left | assumption].
  - destruct (IH Hin) as [x' [Hx' Hp]]. exists x'. split; [now right | assumption].
Qed.

Lemma StronglySorted_Forall2 (R : A -> A -> Prop) (R' : B -> B -> Prop)
    (P : A -> B -> Prop) (l : list A) (r : list B) :
  (forall x x' y y', R x x' -> P x y -> P x' y' -> R' y y') ->
  Forall2 P l r -> StronglySorted R l -> StronglySorted R' r.
Proof.
  intros Htr Hall. induction Hall as [| x y l r Hxy Hall IH]; intros Hs.
  - constructor.
  - inversion Hs as [| ? ? Hs' Hfa]; subst. constructor; [now apply IH |].
    apply Forall_forall. intros y' Hy'.
    edestruct Forall2_In_r as [x' [Hx' Hp]]; [exact Hall | exact Hy' |].
    rewrite Forall_forall in Hfa. eapply Htr; eauto.
Qed.

End ListFacts.

Section SortedFacts.
Context {A : Type} (R : A -> A -> Prop).

Lemma StronglySorted_snoc (l : list A) (a : A) :
  StronglySorted R l -> Forall (fun x => R x a) l -> StronglySorted R (l ++ [a]).
Proof.
  induction l as [| x l IH]; intros Hs Hfa; simpl.
  - repeat constructor.
  - inversion Hs as [| ? ? Hs' Hx]; subst. inversion Hfa as [| ? ? Hxa Hla]; subst.
    constructor; [now apply IH |].
    apply Forall_app. split; [assumption | now constructor].
Qed.

Lemma StronglySorted_firstn (n : nat) (l : list A) :
  StronglySorted R l -> StronglySorted R (firstn n l).
Proof.
  revert l. induction n as [| n IH]; intros l Hs; [constructor |].
  destruct l as [| x l]; [constructor |].
  inversion Hs as [| ? ? Hs' Hx]; subst. simpl. constructor; [now apply IH |].
  apply Forall_forall. intros y Hy. rewrite Forall_forall in Hx.
  apply Hx. eapply firstn_incl. eassumption.
Qed.

Lemma StronglySorted_slice_to (k : Z) (l : list A) :
  StronglySorted R l -> StronglySorted R (slice_to k l).
Proof. unfold slice_to. destruct (0 <=? k); apply StronglySorted_firstn. Qed.

Lemma StronglySorted_filter (f : A -> bool) (l : list A) :
  StronglySorted R l -> StronglySorted R (filter f l).
Proof.
  induction 1 as [| x l Hs IH Hx]; simpl; [constructor |].
  destruct (f x); [| assumption].
  constructor; [assumption |].
  apply Forall_forall. intros y Hy. apply filter_In in Hy.
  rewrite Forall_forall in Hx. now apply Hx.
Qed.

End SortedFacts.

Lemma StronglySorted_weaken {A} (R R' : A -> A -> Prop) (l : list A) :
  (forall a b, R a b -> R' a b) -> StronglySorted R l -> StronglySorted R' l.
Proof.
  intros Himp. induction 1 as [| x l Hs IH Hx]; constructor; [assumption |].
  eapply Forall_impl; [| exact Hx]. intros b. apply Himp.
Qed.

Lemma StronglySorted_reversed {A} (R : A -> A -> Prop) (l : list A) :
  StronglySorted R l -> StronglySorted (fun a b => R b a) (reversed l).
Proof.
  unfold reversed. induction 1 as [| x l Hs IH Hx]; simpl; [constructor |].
  apply StronglySorted_snoc; [assumption |].
  apply Forall_forall. intros y Hy. apply in_rev in Hy.
  rewrite Forall_forall in Hx. now apply Hx.
Qed.

(** ** [index_documents] *)

Section IndexFacts.
Context `{C : Collaborators}.

Lemma encode_batch_Forall2 (docs : list string) (e : list Vec) :
  encode_batch docs = Some e -> Forall2 (fun d v => encode d = Some v) docs e.
Proof.
  revert e. induction docs as [| d docs IH]; intros e He; simpl in He.
  - injection He as <-. constructor.
  - destruct (encode d) as [v |] eqn:Hd; [| discriminate].
    destruct (encode_batch docs) as [vs |]; [| discriminate].
    injection He as <-. constructor; [assumption | now apply IH].
Qed.

Lemma encode_batch_length (docs : list string) (e : list Vec) :
  encode_batch docs = Some e -> length e = length docs.
Proof. intros He. eapply Forall2_length_eq, encode_batch_Forall2, He. Qed.

Lemma index_documents_success (docs : list string) (e : list Vec)
    (self : SimpleSemanticSearch) :
  encode_batch docs = Some e ->
  index_documents docs self = (Return tt, {| documents := docs; embeddings := Some e |}).
Proof. intros He. unfold index_documents, bind, liftO. simpl. now rewrite He. Qed.

Lemma index_documents_failure (docs : list string) (self : SimpleSemanticSearch) :
  encode_batch docs = None ->
  index_documents docs self =
    (Raise EmbeddingError, {| documents := docs; embeddings := embeddings self |}).
Proof. intros He. unfold index_documents, bind, liftO. simpl. now rewrite He. Qed.

Lemma index_documents_returns (docs : list string) (self self' : SimpleSemanticSearch)
    (u : unit) :
  index_documents docs self = (Return u, self') ->
  exists e, encode_batch docs = Some e /\
            self' = {| documents := docs; embeddings := Some e |}.
Proof.
  intros Hrun. destruct (encode_batch docs) as [e |] eqn:He.
  - rewrite (index_documents_success _ _ self He) in Hrun.
    exists e. split; [reflexivity | congruence].
  - rewrite (index_documents_failure _ self He) in Hrun. discriminate.
Qed.


End IndexFacts.

(** ** Ranking *)

Section RankingFacts.
Context `{C : Collaborators} {AS : ArgsortSpec C}.

Lemma argsort_range (sims : list Score) (i : nat) :
  In i (argsort sims) <-> (i < length sims)%nat.
Proof.
  split; intros H.
  - apply (Permutation_in _ (argsort_perm sims)) in H. apply in_seq in H. lia.
  - apply (Permutation_in _ (Permutation_sym (argsort_perm sims))).
    apply in_seq. lia.
Qed.

Lemma argsort_length (sims : list Score) : length (argsort sims) = length sims.
Proof. rewrite (Permutation_length (argsort_perm sims)). apply length_seq. Qed.

Lemma argsort_NoDup (sims : list Score) : NoDup (argsort sims).
Proof.
  apply (Permutation_NoDup (Permutation_sym (argsort_perm sims))). apply seq_NoDup.
Qed.

Lemma reversed_argsort_sorted (sims : list Score) :
  StronglySorted (higher sims) (reversed (argsort sims)).
Proof.
  eapply StronglySorted_weaken;
    [| apply StronglySorted_reversed, (argsort_sorted sims)].
  intros i j Hij x y Hx Hy. simpl in Hij. now apply Hij.
Qed.

Lemma top_indices_range (sims : list Score) (k : Z) (i : nat) :
  In i (top_indices sims k) -> (i < length sims)%nat.
Proof.
  unfold top_indices, reversed. intros H. apply slice_to_incl in H.
  apply in_rev in H. now apply argsort_range.
Qed.

Lemma top_indices_length (sims : list Score) (k : Z) :
  0 <= k -> Z.of_nat (length (top_indices sims k)) = Z.min k (Z.of_nat (length sims)).
Proof.
  intros Hk. unfold top_indices, reversed. rewrite slice_to_length by assumption.
  now rewrite length_rev, argsort_length.
Qed.

Lemma top_indices_sorted (sims : list Score) (k : Z) :
  StronglySorted (higher sims) (top_indices sims k).
Proof. apply StronglySorted_slice_to, reversed_argsort_sorted. Qed.

End RankingFacts.

(** ** [search] *)

Section SearchFacts.
Context `{C : Collaborators}.

Lemma search_run (q : string) (k : Z) (self : SimpleSemanticSearch)
    (qv : Vec) (e : list Vec) :
  encode q = Some qv -> embeddings self = Some e ->
  search q k self =
    (comprehension
       (document_with_score (documents self) (map (pytorch_cos_sim qv) e))
       (top_indices (map (pytorch_cos_sim qv) e) k), self).
Proof.
  intros Hq He. unfold search, bind, liftO, get. rewrite Hq. simpl.
  rewrite He. reflexivity.
Qed.

Lemma document_with_score_returns (docs : list string) (sims : list Score)
    (idx : nat) (r : string * Score) :
  document_with_score docs sims idx = Return r <->
  nth_error docs idx = Some (fst r) /\ nth_error sims idx = Some (snd r).
Proof.
  unfold document_with_score. rewrite !getitem_nat.
  destruct (nth_error docs idx) as [d |], (nth_error sims idx) as [sc |]; simpl;
    split; intros H; try discriminate; try (destruct H; discriminate).
  - injection H as <-. split; reflexivity.
  - destruct r as [d' sc']. destruct H as [Hd Hs]. simpl in *. congruence.
Qed.

Lemma document_with_score_defined (docs : list string) (sims : list Score) (idx : nat) :
  (idx < length docs)%nat -> (idx < length sims)%nat ->
  exists r, document_with_score docs sims idx = Return r.
Proof.
  intros Hd Hs.
  destruct (nth_error docs idx) as [d |] eqn:Ed; [| apply nth_error_None in Ed; lia].
  destruct (nth_error sims idx) as [sc |] eqn:Es; [| apply nth_error_None in Es; lia].
  exists (d, sc). apply document_with_score_returns. split; assumption.
Qed.

Context {AS : ArgsortSpec C}.

(** On an index whose two tables have the same length, a search whose query
    can be encoded returns one pair per kept position. *)
Lemma search_aligned (q : string) (k : Z) (self : SimpleSemanticSearch)
    (qv : Vec) (e : list Vec) :
  encode q = Some qv -> embeddings self = Some e ->
  length e = length (documents self) ->
  exists res,
    search q k self = (Return res, self) /\
    Forall2 (fun idx r =>
               nth_error (documents self) idx = Some (fst r) /\
               nth_error (map (pytorch_cos_sim qv) e) idx = Some (snd r))
            (top_indices (map (pytorch_cos_sim qv) e) k) res.
Proof.
  intros Hq He Hlen. rewrite (search_run q k self qv e Hq He).
  set (sims := map (pytorch_cos_sim qv) e).
  destruct (comprehension_total (document_with_score (documents self) sims)
              (top_indices sims k)) as [res [Hres Hall]].
  - intros idx Hin. apply top_indices_range in Hin.
    apply document_with_score_defined; [| assumption].
    unfold sims in Hin. rewrite length_map in Hin. lia.
  - exists res. split; [now rewrite Hres |].
    eapply Forall2_impl; [| exact Hall].
    intros idx r Hr. now apply document_with_score_returns.
Qed.

End SearchFacts.

(** ** The insertion argsort meets the [argsort] contract *)

Section InsertionArgsortFacts.
Context {A : Type} (leb : A -> A -> bool).
Hypothesis leb_total : forall x y, leb x y = true \/ leb y x = true.
Hypothesis leb_trans : forall x y z, leb x y = true -> leb y z = true -> leb x z = true.

(** [above l i j]: the score at [i] is not below the score at [j]. *)
Let above (l : list A) (i j : nat) : Prop :=
  forall x y, nth_error l i = Some x -> nth_error l j = Some y -> leb y x = true.

Let valid (l : list A) (i : nat) : Prop := (i < length l)%nat.

Lemma shift_in_perm (l : list A) (vi : nat) (racc : list nat) :
  Permutation (shift_in leb l vi racc) (vi :: racc).
Proof.
  induction racc as [| pk r IH]; simpl; [apply Permutation_refl |].
  destruct (score_lt leb l vi pk).
  - eapply perm_trans; [apply perm_skip, IH | apply perm_swap].
  - apply Permutation_refl.
Qed.

Lemma score_lt_true (l : list A) (i j : nat) :
  score_lt leb l i j = true -> above l j i.
Proof.
  unfold score_lt, above. intros H x y Hj Hi. rewrite Hi, Hj in H.
  apply negb_true_iff in H. destruct (leb_total x y) as [Hxy | Hyx]; congruence.
Qed.

Lemma score_lt_false (l : list A) (i j : nat) :
  score_lt leb l i j = false -> above l i j.
Proof.
  unfold score_lt, above. intros H x y Hi Hj. rewrite Hi, Hj in H.
  now apply negb_false_iff in H.
Qed.

Lemma above_trans (l : list A) (i j k : nat) :
  valid l j -> above l i j -> above l j k -> above l i k.
Proof.
  unfold valid, above. intros Hj Hij Hjk x z Hi Hk.
  destruct (nth_error l j) as [y |] eqn:Ej; [| apply nth_error_None in Ej; lia].
  eapply leb_trans; [apply (Hjk y z) | apply (Hij x y)]; auto.
Qed.

Lemma shift_in_sorted (l : list A) (vi : nat) (racc : list nat) :
  Forall (valid l) racc ->
  StronglySorted (above l) racc -> StronglySorted (above l) (shift_in leb l vi racc).
Proof.
  induction racc as [| pk r IH]; intros Hv Hs; simpl.
  - repeat constructor.
  - inversion Hs as [| ? ? Hs' Hpk]; subst. inversion Hv as [| ? ? Hvpk Hvr]; subst.
    destruct (score_lt leb l vi pk) eqn:Hlt.
    + constructor; [now apply IH |].
      apply Forall_forall. intros j Hj.
      apply (Permutation_in _ (shift_in_perm l vi r)) in Hj.
      destruct Hj as [<- | Hj].
      * now apply score_lt_true.
      * rewrite Forall_forall in Hpk. now apply Hpk.
    + constructor; [assumption |].
      constructor; [now apply score_lt_false |].
      apply Forall_forall. intros j Hj. rewrite Forall_forall in Hpk.
      apply above_trans with (j := pk); [assumption | now apply score_lt_false |].
      now apply Hpk.
Qed.

Lemma insertion_pass_from (l : list A) (positions racc : list nat) :
  Forall (valid l) positions -> Forall (valid l) racc ->
  StronglySorted (above l) racc ->
  Permutation (fold_left (fun r vi => shift_in leb l vi r) positions racc)
              (positions ++ racc) /\
  StronglySorted (above l) (fold_left (fun r vi => shift_in leb l vi r) positions racc).
Proof.
  revert racc. induction positions as [| vi ps IH]; intros racc Hps Hracc Hs; simpl.
  - split; [apply Permutation_refl | assumption].
  - inversion Hps as [| ? ? Hvi Hps']; subst.
    destruct (IH (shift_in leb l vi racc)) as [Hperm Hsorted].
    + assumption.
    + apply Forall_forall. intros j Hj.
      apply (Permutation_in _ (shift_in_perm l vi racc)) in Hj.
      destruct Hj as [<- | Hj]; [assumption |].
      rewrite Forall_forall in Hracc. now apply Hracc.
    + now apply shift_in_sorted.
    + split; [| assumption].
      eapply perm_trans; [exact Hperm |].
      eapply perm_trans; [apply Permutation_app_head, shift_in_perm |].
      apply Permutation_sym, Permutation_middle.
Qed.

Lemma insertion_argsort_perm (l : list A) :
  Permutation (insertion_argsort leb l) (seq 0 (length l)).
Proof.
  unfold insertion_argsort, insertion_pass.
  eapply perm_trans; [apply Permutation_sym, Permutation_rev |].
  destruct (insertion_pass_from l (seq 0 (length l)) []) as [Hperm _].
  - apply Forall_forall. intros i Hi. apply in_seq in Hi. unfold valid. lia.
  - constructor.
  - constructor.
  - now rewrite app_nil_r in Hperm.
Qed.

Lemma insertion_argsort_sorted (l : list A) :
  StronglySorted
    (fun i j => forall x y, nth_error l i = Some x -> nth_error l j = Some y ->
                            leb x y = true)
    (insertion_argsort leb l).
Proof.
  unfold insertion_argsort, insertion_pass.
  destruct (insertion_pass_from l (seq 0 (length l)) []) as [_ Hsorted].
  - apply Forall_forall. intros i Hi. apply in_seq in Hi. unfold valid. lia.
  - constructor.
  - constructor.
  - eapply StronglySorted_weaken; [| apply StronglySorted_reversed, Hsorted].
    intros i j Hij x y Hx Hy. simpl in Hij. now apply Hij.
Qed.

End InsertionArgsortFacts.

Lemma Zleb_total (x y : Z) : (x <=? y) = true \/ (y <=? x) = true.
Proof. destruct (Z.leb_spec x y); [now left | right; apply Z.leb_le; lia]. Qed.

Lemma Zleb_trans (x y z : Z) : (x <=? y) = true -> (y <=? z) = true -> (x <=? z) = true.
Proof. rewrite !Z.leb_le. lia. Qed.

#[export] Instance stub_argsort_spec : ArgsortSpec Stub.stub.
Proof.
  split; intros l.
  - apply (insertion_argsort_perm Z.leb Zleb_total Zleb_trans).
  - apply (insertion_argsort_sorted Z.leb Zleb_total Zleb_trans).
Qed.

(** ** Claims about [search] on a populated index *)

Section TopRankFacts.
Context `{C : Collaborators}.

Lemma encode_batch_lookup (docs : list string) (e : list Vec)
    (i : nat) (d : string) (v : Vec) :
  encode_batch docs = Some e ->
  nth_error docs i = Some d -> nth_error e i = Some v -> encode d = Some v.
Proof.
  intros He. pose proof (encode_batch_Forall2 _ _ He) as Hall. clear He.
  revert i. induction Hall as [| d' v' docs e Hdv Hall IH]; intros i Hd Hv.
  - destruct i; discriminate.
  - destruct i as [| i]; simpl in Hd, Hv.
    + congruence.
    + now apply (IH i).
Qed.

Lemma StronglySorted_app_inv {A} (R : A -> A -> Prop) (l1 l2 : list A) (x y : A) :
  StronglySorted R (l1 ++ l2) -> In x l1 -> In y l2 -> R x y.
Proof.
  induction l1 as [| a l1 IH]; intros Hs Hx Hy; [contradiction |].
  simpl in Hs. inversion Hs as [| ? ? Hs' Ha]; subst.
  destruct Hx as [-> | Hx].
  - rewrite Forall_forall in Ha. apply Ha, in_or_app. now right.
  - now apply IH.
Qed.

Context {AS : ArgsortSpec C}.

(** A position the slice keeps does not score below one it leaves out. *)
Lemma top_indices_dominate (sims : list Score) (k : Z) (idx j : nat) :
  0 <= k -> In idx (top_indices sims k) ->
  (j < length sims)%nat -> ~ In j (top_indices sims k) ->
  higher sims idx j.
Proof.
  unfold top_indices, slice_to. intros Hk Hidx Hj Hnot.
  replace (0 <=? k) with true in * by (symmetry; apply Z.leb_le; exact Hk).
  pose proof (reversed_argsort_sorted sims) as Hs.
  assert (Hin : In j (reversed (argsort sims))).
  { unfold reversed. apply -> in_rev. now apply argsort_range. }
  rewrite <- (firstn_skipn (Z.to_nat k) (reversed (argsort sims))) in Hs, Hin.
  apply in_app_or in Hin. destruct Hin as [Hin | Hin]; [contradiction |].
  exact (StronglySorted_app_inv _ _ _ _ _ Hs Hidx Hin).
Qed.

End TopRankFacts.

(** C1, as the specification words it, fails on an index that holds a
    non-empty corpus but whose last [index_documents] raised: the documents
    are those of the failed batch, the embeddings those of the batch
    before.  After indexing three documents and then failing on a batch of
    two, a search for three results raises [IndexError] instead of
    returning [min(3, 2)] pairs. *)
Lemma search_on_stale_index_raises :
  let stale :=
    snd (index_documents (C := Stub.stub) ["dog"; ""]%string
           (snd (index_documents (C := Stub.stub) Stub.pets init))) in
  documents stale = ["dog"; ""]%string /\
  embeddings stale = Some [2; 5; -1] /\
  Stub.stub_encode "cat" = Some 2 /\
  search (C := Stub.stub) "cat" 3 stale = (Raise IndexError, stale).
Proof. repeat split. Qed.

(** C1, amended: on an index whose last [index_documents] returned, with a
    non-empty corpus, a search with a query the embedder encodes and a
    positive [top_k] returns exactly [min(top_k, corpus size)] pairs, in
    non-increasing order of score (as many pairs as documents when [top_k]
    reaches the corpus size).  The pairs are stored documents, taken at
    pairwise distinct corpus positions, each with the similarity between
    the query's vector and the vector of that document, and no document
    left out scores above a returned one. *)
Theorem search_length_and_order `{C : Collaborators} {AS : ArgsortSpec C}
    (self0 self : SimpleSemanticSearch) (docs : list string)
    (q : string) (qv : Vec) (top_k : Z) :
  index_documents docs self0 = (Return tt, self) ->
  docs <> [] ->
  encode q = Some qv ->
  0 < top_k ->
  exists res positions,
    search q top_k self = (Return res, self) /\
    Z.of_nat (length res) = Z.min top_k (Z.of_nat (length docs)) /\
    non_increasing res /\
    (Z.of_nat (length docs) <= top_k -> length res = length docs) /\
    NoDup positions /\
    Forall2 (fun idx r =>
               exists v, nth_error docs idx = Some (fst r) /\
                         encode (fst r) = Some v /\
                         snd r = pytorch_cos_sim qv v)
            positions res /\
    (forall j dj vj,
        nth_error docs j = Some dj -> encode dj = Some vj -> ~ In j positions ->
        Forall (fun r => sleb (pytorch_cos_sim qv vj) (snd r) = true) res).
Proof.
  intros Hidx _ Hq Hk.
  destruct (index_documents_returns _ _ _ _ Hidx) as [e [He ->]].
  pose proof (encode_batch_length _ _ He) as Hlen.
  destruct (search_aligned q top_k {| documents := docs; embeddings := Some e |} qv e Hq
              eq_refl Hlen) as [res [Hrun Hall]].
  simpl in Hall. set (sims := map (pytorch_cos_sim qv) e) in *.
  assert (Hsims : length sims = length docs) by (unfold sims; now rewrite length_map).
  assert (Hres : Z.of_nat (length res) = Z.min top_k (Z.of_nat (length docs))).
  { rewrite (Forall2_length_eq _ _ _ Hall), top_indices_length by lia.
    now rewrite Hsims. }
  assert (Hscore : forall i d v, nth_error docs i = Some d -> encode d = Some v ->
                                 nth_error sims i = Some (pytorch_cos_sim qv v)).
  { intros i d v Hd Hv.
    destruct (nth_error e i) as [b |] eqn:Eb;
      [| apply nth_error_None in Eb;
         assert (i < length docs)%nat by (apply nth_error_Some; congruence); lia].
    pose proof (encode_batch_lookup _ _ _ _ _ He Hd Eb) as Hb.
    unfold sims. rewrite nth_error_map, Eb. simpl. congruence. }
  exists res, (top_indices sims top_k).
  split; [exact Hrun |]. split; [exact Hres |]. split; [| split; [| split; [| split]]].
  - unfold non_increasing.
    eapply (StronglySorted_Forall2 (higher sims));
      [| exact Hall | apply (top_indices_sorted sims top_k)].
    intros i j r1 r2 Hij [_ H1] [_ H2]. now apply (Hij _ _ H1 H2).
  - intros Hbig. lia.
  - unfold top_indices, reversed.
    assert (Hnd : NoDup (rev (argsort sims)))
      by (apply (Permutation_NoDup (Permutation_rev _)), argsort_NoDup).
    unfold slice_to. destruct (0 <=? top_k).
    + rewrite <- (firstn_skipn (Z.to_nat top_k)) in Hnd.
      now apply NoDup_app_remove_r in Hnd.
    + rewrite <- (firstn_skipn (Z.to_nat (Z.of_nat (length (rev (argsort sims))) + top_k)))
        in Hnd.
      now apply NoDup_app_remove_r in Hnd.
  - eapply Forall2_impl; [| exact Hall].
    intros idx r [Hd Hs]. unfold sims in Hs. rewrite nth_error_map in Hs.
    destruct (nth_error e idx) as [v |] eqn:Ev; [| discriminate].
    simpl in Hs. injection Hs as Hs. exists v.
    split; [exact Hd |]. split; [| now symmetry].
    exact (encode_batch_lookup _ _ _ _ _ He Hd Ev).
  - intros j dj vj Hdj Hvj Hnot. apply Forall_forall. intros r Hr.
    edestruct (@Forall2_In_r nat) as [idx [Hidx' Hp]]; [exact Hall | exact Hr |].
    simpl in Hp. destruct Hp as [_ Hs].
    assert (Hj : (j < length sims)%nat)
      by (rewrite Hsims; apply nth_error_Some; congruence).
    apply (top_indices_dominate sims top_k idx j ltac:(lia) Hidx' Hj Hnot _ _ Hs).
    now apply (Hscore j dj vj).
Qed.

Lemma search_length_and_order_witness :
  exists res positions,
    search (C := Stub.stub) "cat" 2 Stub.pets_index = (Return res, Stub.pets_index) /\
    Z.of_nat (length res) = Z.min 2 (Z.of_nat (length Stub.pets)) /\
    non_increasing res /\
    (Z.of_nat (length Stub.pets) <= 2 -> length res = length Stub.pets) /\
    NoDup positions /\
    Forall2 (fun idx r =>
               exists v, nth_error Stub.pets idx = Some (fst r) /\
                         Stub.stub_encode (fst r) = Some v /\
                         snd r = Stub.stub_cos_sim 2 v)
            positions res /\
    (forall j dj vj,
        nth_error Stub.pets j = Some dj -> Stub.stub_encode dj = Some vj ->
        ~ In j positions ->
        Forall (fun r => (Stub.stub_cos_sim 2 vj <=? snd r) = true) res).
Proof.
  apply (search_length_and_order (C := Stub.stub) init Stub.pets_index Stub.pets
           "cat" 2 2).
  - reflexivity.
  - discriminate.
  - reflexivity.
  - lia.
Defined.

(** ** Claims about [index_documents] *)

(** C2, as the specification words it, fails: when the embedder raises in
    the middle of [index_documents], the new documents have already been
    stored.  Re-indexing a one-document index with a batch whose second
    text cannot be encoded leaves two documents beside one embedding. *)
Lemma index_documents_failure_not_transactional :
  let before := snd (index_documents (C := Stub.stub) ["cat"%string] init) in
  let after := snd (index_documents (C := Stub.stub) ["dog"; ""]%string before) in
  fst (index_documents (C := Stub.stub) ["dog"; ""]%string before) = Raise EmbeddingError /\
  tables_aligned before /\
  documents after <> documents before /\
  embeddings after = embeddings before /\
  ~ tables_aligned after.
Proof.
  simpl. repeat split; try reflexivity.
  - discriminate.
  - unfold tables_aligned. simpl. discriminate.
Qed.

(** C2, amended: if the embedder cannot encode some document of the batch,
    [index_documents] raises the embedder's error and the stored embeddings
    are those held before the call; if it encodes them all, the call
    returns, the stored documents are the batch and the stored embeddings
    are its encodings, one per document and in the same order. *)
Theorem index_documents_outcome `{C : Collaborators}
    (docs : list string) (self : SimpleSemanticSearch) :
  match encode_batch docs with
  | None =>
      fst (index_documents docs self) = Raise EmbeddingError /\
      embeddings (snd (index_documents docs self)) = embeddings self
  | Some e =>
      index_documents docs self =
        (Return tt, {| documents := docs; embeddings := Some e |}) /\
      tables_aligned (snd (index_documents docs self)) /\
      Forall2 (fun d v => encode d = Some v) docs e
  end.
Proof.
  destruct (encode_batch docs) as [e |] eqn:He.
  - rewrite (index_documents_success _ _ self He). repeat split.
    + unfold tables_aligned. simpl. now apply encode_batch_length.
    + now apply encode_batch_Forall2.
  - rewrite (index_documents_failure _ self He). split; reflexivity.
Qed.



(** ** Claims about an index without documents *)

(** C4, as the specification words it, fails on an index that was never
    populated: [embeddings] is still [None] and iterating over it raises. *)
Lemma search_unindexed_raises :
  search (C := Stub.stub) "cat" 3 init = (Raise TypeError, init).
Proof. reflexivity. Qed.

(** C4, amended: on an index populated with the empty document sequence, a
    search whose query the embedder can encode returns the empty result
    sequence, for every [top_k]. *)
Theorem search_empty_index `{C : Collaborators} {AS : ArgsortSpec C}
    (self0 : SimpleSemanticSearch) (q : string) (qv : Vec) (top_k : Z) :
  encode q = Some qv ->
  exists self,
    index_documents [] self0 = (Return tt, self) /\
    search q top_k self = (Return [], self).
Proof.
  intros Hq. exists {| documents := []; embeddings := Some [] |}.
  split; [reflexivity |].
  rewrite (search_run q top_k {| documents := []; embeddings := Some [] |} qv []
             Hq eq_refl). simpl.
  assert (Hnil : top_indices (@nil Score) top_k = []).
  { destruct (top_indices [] top_k) as [| i r] eqn:Ht; [reflexivity |].
    assert (Hin : In i (top_indices [] top_k)) by (rewrite Ht; now left).
    apply top_indices_range in Hin. simpl in Hin. lia. }
  now rewrite Hnil.
Qed.

Lemma search_empty_index_witness :
  exists self,
    index_documents (C := Stub.stub) [] Stub.pets_index = (Return tt, self) /\
    search "cat" 3 self = (Return [], self).
Proof.
  apply (search_empty_index (C := Stub.stub) Stub.pets_index "cat" 2 3).
  reflexivity.
Defined.

(** ** Frame: queries do not write *)

(** C10: [search] and [find_most_similar] leave the state they read as it
    was, whether they return or raise: the documents and embeddings of the
    index after [search], and the notebook globals after
    [find_most_similar], are those before the call. *)
Theorem queries_are_read_only `{C : Collaborators} :
  (forall (q : string) (top_k : Z) (self : SimpleSemanticSearch),
      snd (search q top_k self) = self /\
      documents (snd (search q top_k self)) = documents self /\
      embeddings (snd (search q top_k self)) = embeddings self) /\
  (forall (doc_idx top_k : Z) (g : Notebook),
      snd (find_most_similar doc_idx top_k g) = g).
Proof.
  split.
  - intros q top_k self.
    assert (H : snd (search q top_k self) = self).
    { unfold search, bind, liftO, get.
      destruct (encode q); simpl; [| reflexivity].
      destruct (embeddings self); reflexivity. }
    rewrite H. repeat split.
  - intros doc_idx top_k g. unfold find_most_similar, bind, liftO, get.
    destruct (getitem (doc_embeddings g) doc_idx); reflexivity.
Qed.

(** ** Claims about [find_most_similar] *)

Section FindMostSimilarFacts.
Context `{C : Collaborators}.

Lemma find_most_similar_run (doc_idx top_k : Z) (g : Notebook) (qe : Vec) :
  getitem (doc_embeddings g) doc_idx = Return qe ->
  find_most_similar doc_idx top_k g =
    (comprehension
       (index_with_score (map (pytorch_cos_sim qe) (doc_embeddings g)))
       (slice_to top_k
          (filter (fun idx => negb (Z.of_nat idx =? doc_idx))
                  (reversed (argsort (map (pytorch_cos_sim qe) (doc_embeddings g)))))),
     g).
Proof.
  intros Hq. unfold find_most_similar, bind, liftO, get. now rewrite Hq.
Qed.

Lemma index_with_score_returns (sims : list Score) (idx : nat) (r : nat * Score) :
  index_with_score sims idx = Return r <->
  fst r = idx /\ nth_error sims idx = Some (snd r).
Proof.
  unfold index_with_score. rewrite getitem_nat.
  destruct (nth_error sims idx) as [sc |]; simpl; split; intros H.
  - injection H as <-. split; reflexivity.
  - destruct r as [i sc']. destruct H as [Hi Hs]. simpl in *. congruence.
  - discriminate.
  - destruct H; discriminate.
Qed.

Lemma filter_keeps_all {A} (f : A -> bool) (l : list A) :
  (forall x, In x l -> f x = true) -> filter f l = l.
Proof.
  induction l as [| a l IH]; intros H; simpl; [reflexivity |].
  rewrite (H a (or_introl eq_refl)). f_equal. apply IH. intros x Hx. apply H. now right.
Qed.

Lemma filter_drops_one {A} (f : A -> bool) (x : A) (l : list A) :
  (forall a, f a = false <-> a = x) -> NoDup l -> In x l ->
  S (length (filter f l)) = length l.
Proof.
  intros Hf. induction l as [| a l IH]; intros Hnd Hin; [contradiction |].
  inversion Hnd as [| ? ? Hnotin Hnd']; subst. simpl.
  destruct (f a) eqn:Hfa.
  - destruct Hin as [-> | Hin].
    + assert (Hx : f x = false) by now apply Hf. congruence.
    + simpl. f_equal. now apply IH.
  - apply Hf in Hfa. subst a. f_equal. f_equal. apply filter_keeps_all.
    intros y Hy. destruct (f y) eqn:Hfy; [reflexivity |].
    apply Hf in Hfy. subst y. contradiction.
Qed.

End FindMostSimilarFacts.

(** C6: for a position inside the corpus and a positive [top_k],
    [find_most_similar] returns, never lists the position itself, and
    returns at most [top_k] pairs (exactly [min(top_k, corpus size - 1)]);
    on a three-document corpus that is at most two pairs. *)
Theorem find_most_similar_excludes_query `{C : Collaborators} {AS : ArgsortSpec C}
    (g : Notebook) (doc_idx top_k : Z) :
  0 <= doc_idx < Z.of_nat (length (doc_embeddings g)) ->
  0 < top_k ->
  exists res,
    find_most_similar doc_idx top_k g = (Return res, g) /\
    (forall idx, In idx (map fst res) -> Z.of_nat idx <> doc_idx) /\
    Z.of_nat (length res) <= top_k /\
    Z.of_nat (length res) = Z.min top_k (Z.of_nat (length (doc_embeddings g)) - 1) /\
    (length (doc_embeddings g) = 3%nat -> (length res <= 2)%nat).
Proof.
  intros Hp Hk.
  destruct (getitem_in_range (doc_embeddings g) doc_idx Hp) as [qe [Hqe _]].
  rewrite (find_most_similar_run doc_idx top_k g qe Hqe).
  set (sims := map (pytorch_cos_sim qe) (doc_embeddings g)).
  set (keep := fun idx : nat => negb (Z.of_nat idx =? doc_idx)).
  assert (Hlen : length sims = length (doc_embeddings g)) by apply length_map.
  destruct (comprehension_total (index_with_score sims)
              (slice_to top_k (filter keep (reversed (argsort sims)))))
    as [res [Hres Hall]].
  { intros idx Hin. apply slice_to_incl, filter_In in Hin. destruct Hin as [Hin _].
    apply in_rev, argsort_range in Hin.
    destruct (nth_error sims idx) as [sc |] eqn:Es; [| apply nth_error_None in Es; lia].
    exists (idx, sc). now apply index_with_score_returns. }
  assert (Hkept : S (length (filter keep (reversed (argsort sims)))) = length sims).
  { rewrite (filter_drops_one keep (Z.to_nat doc_idx)).
    - unfold reversed. now rewrite length_rev, argsort_length.
    - intros a. unfold keep. rewrite negb_false_iff, Z.eqb_eq. lia.
    - apply (Permutation_NoDup (Permutation_rev _)), argsort_NoDup.
    - unfold reversed. apply -> in_rev. apply argsort_range. lia. }
  assert (Hcount : Z.of_nat (length res) =
                   Z.min top_k (Z.of_nat (length (doc_embeddings g)) - 1)).
  { rewrite (Forall2_length_eq _ _ _ Hall), slice_to_length by lia. lia. }
  exists res. split; [now rewrite Hres |]. split; [| split; [lia | split; [exact Hcount | lia]]].
  intros idx Hin. apply in_map_iff in Hin. destruct Hin as [r [<- Hr]].
  edestruct (@Forall2_In_r nat) as [i [Hi Hir]]; [exact Hall | exact Hr |].
  apply index_with_score_returns in Hir. destruct Hir as [-> _].
  apply slice_to_incl, filter_In in Hi. destruct Hi as [_ Hi].
  unfold keep in Hi. apply negb_true_iff, Z.eqb_neq in Hi. exact Hi.
Qed.

Lemma find_most_similar_excludes_query_witness :
  exists res,
    find_most_similar (C := Stub.stub) 0 default_top_k Stub.pets_notebook =
      (Return res, Stub.pets_notebook) /\
    (forall idx, In idx (map fst res) -> Z.of_nat idx <> 0) /\
    Z.of_nat (length res) <= default_top_k /\
    Z.of_nat (length res) =
      Z.min default_top_k (Z.of_nat (length (doc_embeddings Stub.pets_notebook)) - 1) /\
    (length (doc_embeddings Stub.pets_notebook) = 3%nat -> (length res <= 2)%nat).
Proof.
  apply (find_most_similar_excludes_query (C := Stub.stub) Stub.pets_notebook 0
           default_top_k).
  - simpl. lia.
  - unfold default_top_k. lia.
Defined.

(** C7, as the specification words it, fails for a negative position no
    smaller than minus the corpus size: the subscript counts from the end,
    the call returns, and the document asked about is among the results. *)
Lemma find_most_similar_negative_position_returns :
  find_most_similar (C := Stub.stub) (-1) 3 Stub.pets_notebook =
    (Return [(2%nat, 1); (1%nat, -1); (0%nat, -1)], Stub.pets_notebook).
Proof. reflexivity. Qed.

(** C7, amended: for a position at or beyond the corpus size, or below
    minus the corpus size, [find_most_similar] raises [IndexError] and the
    notebook globals are unchanged. *)
Theorem find_most_similar_out_of_range `{C : Collaborators}
    (g : Notebook) (doc_idx top_k : Z) :
  Z.of_nat (length (doc_embeddings g)) <= doc_idx \/
  doc_idx < - Z.of_nat (length (doc_embeddings g)) ->
  find_most_similar doc_idx top_k g = (Raise IndexError, g).
Proof.
  intros Hp. unfold find_most_similar, bind, liftO, get.
  now rewrite (getitem_out_of_range (doc_embeddings g) doc_idx Hp).
Qed.

Lemma find_most_similar_out_of_range_witness :
  find_most_similar (C := Stub.stub) 3 default_top_k Stub.pets_notebook =
    (Raise IndexError, Stub.pets_notebook).
Proof.
  apply (find_most_similar_out_of_range (C := Stub.stub) Stub.pets_notebook 3
           default_top_k).
  left. simpl. lia.
Defined.

(** ** Order of the results: ties and the best match *)

Section OrderFacts.
Context `{C : Collaborators} {AS : ArgsortSpec C}.


Lemma Forall2_nth_error {A B} (P : A -> B -> Prop) (l : list A) (r : list B)
    (i : nat) (x : A) (y : B) :
  Forall2 P l r -> nth_error l i = Some x -> nth_error r i = Some y -> P x y.
Proof.
  intros H. revert i. induction H as [| x' y' l r Hxy H IH]; intros i Hx Hy.
  - destruct i; discriminate.
  - destruct i as [| i]; simpl in *.
    + congruence.
    + eapply IH; eassumption.
Qed.


(** The best-ranked position: the first item of the reversed [argsort]. *)
Lemma top_indices_one (sims : list Score) :
  sims <> [] ->
  exists i tl,
    top_indices sims 1 = [i] /\
    (i < length sims)%nat /\
    Forall (higher sims i) tl /\
    forall j, (j < length sims)%nat -> j = i \/ In j tl.
Proof.
  intros Hne. pose proof (reversed_argsort_sorted sims) as Hs.
  unfold top_indices. destruct (reversed (argsort sims)) as [| i tl] eqn:Hr.
  - exfalso. apply (f_equal (@length nat)) in Hr. unfold reversed in Hr.
    rewrite length_rev, argsort_length in Hr. destruct sims; [congruence | discriminate].
  - assert (Hmem : forall j, In j (i :: tl) <-> (j < length sims)%nat).
    { intros j. rewrite <- Hr. unfold reversed. rewrite <- in_rev. apply argsort_range. }
    exists i, tl. repeat split.
    + apply Hmem. now left.
    + now inversion Hs.
    + intros j Hj. apply Hmem in Hj. destruct Hj as [-> | Hj]; [now left | now right].
Qed.

End OrderFacts.




(** C8, as the specification words it, fails on both counts.  Another
    document can be the one returned: "cat" and "kitten" have cosine 1, and
    searching the text "cat" with [top_k = 1] returns "kitten".  And the
    score need not be 1: the stored document "stone" has the zero vector,
    whose cosine with itself is 0, and searching its text returns "dog"
    with score 0. *)
Lemma search_own_text_returns_other_document :
  In "cat"%string Stub.pets /\
  search (C := Stub.stub) "cat" 1 Stub.pets_index =
    (Return [("kitten"%string, 1)], Stub.pets_index) /\
  In "stone"%string Stub.strays /\
  search (C := Stub.stub) "stone" 1 Stub.strays_index =
    (Return [("dog"%string, 0)], Stub.strays_index).
Proof.
  split; [simpl; auto |]. split; [reflexivity |].
  split; [simpl; auto | reflexivity].
Qed.

(** C8, amended: for an indexed document [d] with vector [v], searching
    the text of [d] with [top_k = 1] returns exactly one pair: an indexed
    document together with its similarity to [v], which is the similarity
    of [v] with itself or ranks at least as high.  Whenever every indexed
    document with another text scores strictly below the similarity of [v]
    with itself, the pair is [d] with that self-similarity. *)
Theorem search_own_text `{C : Collaborators} {AS : ArgsortSpec C}
    (self0 self : SimpleSemanticSearch) (docs : list string) (d : string) :
  index_documents docs self0 = (Return tt, self) ->
  In d docs ->
  exists v d' v',
    encode d = Some v /\
    search d 1 self = (Return [(d', pytorch_cos_sim v v')], self) /\
    In d' docs /\ encode d' = Some v' /\
    (pytorch_cos_sim v v' = pytorch_cos_sim v v \/
     sleb (pytorch_cos_sim v v) (pytorch_cos_sim v v') = true) /\
    ((forall d'' v'', In d'' docs -> d'' <> d -> encode d'' = Some v'' ->
                      sleb (pytorch_cos_sim v v) (pytorch_cos_sim v v'') = false) ->
     d' = d /\ v' = v).
Proof.
  intros Hidx Hd.
  destruct (index_documents_returns _ _ _ _ Hidx) as [e [He ->]].
  pose proof (encode_batch_length _ _ He) as Hlen.
  pose proof (encode_batch_Forall2 _ _ He) as Henc.
  (* the position of [d], its vector and its score *)
  destruct (In_nth_error _ _ Hd) as [j Hj].
  assert (Hjlt : (j < length docs)%nat) by (apply nth_error_Some; congruence).
  destruct (nth_error e j) as [v |] eqn:Ej; [| apply nth_error_None in Ej; lia].
  assert (Hv : encode d = Some v) by apply (Forall2_nth_error _ _ _ _ _ _ Henc Hj Ej).
  set (sims := map (pytorch_cos_sim v) e).
  assert (Hsims : length sims = length docs) by (unfold sims; now rewrite length_map).
  assert (Hsj : nth_error sims j = Some (pytorch_cos_sim v v)).
  { unfold sims. now rewrite nth_error_map, Ej. }
  (* the single position kept *)
  destruct (top_indices_one sims) as [i [tl [Htop [Hi [Hbest Hall]]]]].
  { intros Hnil. rewrite Hnil in Hsims. simpl in Hsims. lia. }
  destruct (search_aligned d 1 {| documents := docs; embeddings := Some e |} v e Hv
              eq_refl Hlen) as [res [Hrun Hres]].
  simpl in Hres. fold sims in Hres. rewrite Htop in Hres.
  destruct res as [| r rs]; [inversion Hres |].
  apply Forall2_cons_iff in Hres. destruct Hres as [[Hdoc Hsc] Hnil].
  destruct rs as [| r' rs]; [clear Hnil | inversion Hnil].
  destruct r as [d' sc]. simpl in Hdoc, Hsc.
  destruct (nth_error e i) as [vi |] eqn:Ei; [| apply nth_error_None in Ei; lia].
  assert (Hvi : encode d' = Some vi) by apply (Forall2_nth_error _ _ _ _ _ _ Henc Hdoc Ei).
  assert (Hscore : sc = pytorch_cos_sim v vi).
  { unfold sims in Hsc. rewrite nth_error_map, Ei in Hsc. simpl in Hsc. congruence. }
  rewrite Hscore in Hrun, Hsc. clear Hscore sc.
  exists v, d', vi.
  split; [exact Hv |]. split; [exact Hrun |].
  split; [eapply nth_error_In, Hdoc |]. split; [exact Hvi |].
  destruct (Hall j ltac:(lia)) as [Hji | Hin].
  - (* [d] holds the best position *)
    subst j. assert (Hsame : d' = d) by congruence.
    assert (Hvec : vi = v) by congruence.
    split; [left; now rewrite Hvec | intros _; split; assumption].
  - (* another position ranks first *)
    rewrite Forall_forall in Hbest. pose proof (Hbest j Hin _ _ Hsc Hsj) as Hge.
    split; [now right |].
    intros Hbelow. destruct (string_dec d' d) as [Hsame | Hother].
    + split; [exact Hsame |]. rewrite Hsame in Hvi. congruence.
    + rewrite (Hbelow d' vi (nth_error_In _ _ Hdoc) Hother Hvi) in Hge. discriminate.
Qed.

(** In the three-document stub corpus, "dog" is the only document whose
    vector has a positive cosine with that of "dog". *)
Lemma stub_dog_scores_alone (d'' : string) (v'' : Z) :
  In d'' Stub.pets -> d'' <> "dog"%string -> Stub.stub_encode d'' = Some v'' ->
  (Stub.stub_cos_sim (-1) (-1) <=? Stub.stub_cos_sim (-1) v'') = false.
Proof.
  intros Hin Hne Henc. simpl in Hin.
  destruct Hin as [<- | [<- | [<- | []]]]; try congruence;
    vm_compute in Henc; injection Henc as <-; reflexivity.
Qed.

Lemma search_own_text_witness :
  exists v d' v',
    Stub.stub_encode "dog" = Some v /\
    search (C := Stub.stub) "dog" 1 Stub.pets_index =
      (Return [(d', Stub.stub_cos_sim v v')], Stub.pets_index) /\
    In d' Stub.pets /\ Stub.stub_encode d' = Some v' /\
    (Stub.stub_cos_sim v v' = Stub.stub_cos_sim v v \/
     (Stub.stub_cos_sim v v <=? Stub.stub_cos_sim v v') = true) /\
    ((forall d'' v'', In d'' Stub.pets -> d'' <> "dog"%string ->
                      Stub.stub_encode d'' = Some v'' ->
                      (Stub.stub_cos_sim v v <=? Stub.stub_cos_sim v v'') = false) ->
     d' = "dog"%string /\ v' = v).
Proof.
  apply (search_own_text (C := Stub.stub) init Stub.pets_index Stub.pets "dog").
  - reflexivity.
  - simpl. auto.
Defined.

(** ** Where the scores come from *)

(** Each pair returned by [search] is a stored document together with the
    value [util.pytorch_cos_sim] gives for the query's vector and the
    embedding stored at the document's position.  The arithmetic inside
    [pytorch_cos_sim] is the library's, on floating-point tensors, and is
    not modelled here. *)
Lemma search_scores_are_cosines `{C : Collaborators}
    (self self' : SimpleSemanticSearch) (q : string) (top_k : Z)
    (res : list (string * Score)) (d : string) (sc : Score) :
  search q top_k self = (Return res, self') ->
  In (d, sc) res ->
  exists qv e idx b,
    encode q = Some qv /\ embeddings self = Some e /\
    nth_error (documents self) idx = Some d /\ nth_error e idx = Some b /\
    sc = pytorch_cos_sim qv b.
Proof.
  intros Hrun Hin.
  destruct (encode q) as [qv |] eqn:Hq;
    [| unfold search, bind, liftO in Hrun; rewrite Hq in Hrun; discriminate].
  destruct (embeddings self) as [e |] eqn:He;
    [| unfold search, bind, liftO, get in Hrun; rewrite Hq in Hrun; simpl in Hrun;
       rewrite He in Hrun; discriminate].
  rewrite (search_run q top_k self qv e Hq He) in Hrun. injection Hrun as Hrun _.
  apply comprehension_returns in Hrun.
  edestruct (@Forall2_In_r nat) as [idx [_ Hidx]]; [exact Hrun | exact Hin |].
  apply document_with_score_returns in Hidx. destruct Hidx as [Hdoc Hsc]. simpl in *.
  rewrite nth_error_map in Hsc.
  destruct (nth_error e idx) as [b |] eqn:Eb; [| discriminate].
  simpl in Hsc. injection Hsc as <-.
  exists qv, e, idx, b. repeat split; assumption.
Qed.

(** * Further properties of the notebook's code *)

(** ** More list facts *)

Section MoreListFacts.
Context {A B : Type}.

Lemma comprehension_firstn (f : A -> outcome B) (n : nat) (l : list A) (r : list B) :
  comprehension f l = Return r ->
  comprehension f (firstn n l) = Return (firstn n r).
Proof.
  revert l r. induction n as [| n IH]; intros l r Hr; [reflexivity |].
  destruct l as [| x l]; simpl in Hr.
  - injection Hr as <-. reflexivity.
  - destruct (f x) as [y |] eqn:Hy; [| discriminate]. simpl in Hr.
    destruct (comprehension f l) as [ys |] eqn:Hys; [| discriminate]. simpl in Hr.
    injection Hr as <-. simpl. rewrite Hy. simpl. now rewrite (IH l ys Hys).
Qed.


Lemma slice_to_prefix (k k' : Z) (l : list A) :
  0 <= k <= k' -> slice_to k l = firstn (Z.to_nat k) (slice_to k' l).
Proof.
  intros Hk. unfold slice_to.
  replace (0 <=? k) with true by (symmetry; apply Z.leb_le; lia).
  replace (0 <=? k') with true by (symmetry; apply Z.leb_le; lia).
  rewrite firstn_firstn. f_equal. lia.
Qed.

Lemma slice_to_all (k : Z) (l : list A) :
  Z.of_nat (length l) <= k -> slice_to k l = l.
Proof.
  intros Hk. unfold slice_to.
  replace (0 <=? k) with true by (symmetry; apply Z.leb_le; lia).
  apply firstn_all2. lia.
Qed.


Lemma NoDup_firstn (n : nat) (l : list A) : NoDup l -> NoDup (firstn n l).
Proof.
  intros H. rewrite <- (firstn_skipn n l) in H. now apply NoDup_app_remove_r in H.
Qed.

Lemma NoDup_slice_to (k : Z) (l : list A) : NoDup l -> NoDup (slice_to k l).
Proof. unfold slice_to. destruct (0 <=? k); apply NoDup_firstn. Qed.

Lemma Forall2_map_eq {X} (f : A -> X) (g : B -> X) (l : list A) (r : list B) :
  Forall2 (fun x y => f x = g y) l r -> map f l = map g r.
Proof. induction 1; simpl; congruence. Qed.


End MoreListFacts.



(** ** [search] beyond the aligned, positive case *)

Section SearchMore.
Context `{C : Collaborators}.

(** X1 (prefix): a search with a smaller non-negative [top_k] returns the
    first [top_k] pairs of what a search with a larger one returns. *)
Theorem search_smaller_top_k_is_prefix (self self' : SimpleSemanticSearch)
    (q : string) (k k' : Z) (res' : list (string * Score)) :
  0 <= k <= k' ->
  search q k' self = (Return res', self') ->
  search q k self = (Return (firstn (Z.to_nat k) res'), self).
Proof.
  intros Hk Hrun.
  destruct (encode q) as [qv |] eqn:Hq;
    [| unfold search, bind, liftO in Hrun; rewrite Hq in Hrun; discriminate].
  destruct (embeddings self) as [e |] eqn:He;
    [| unfold search, bind, liftO, get in Hrun; rewrite Hq in Hrun; simpl in Hrun;
       rewrite He in Hrun; discriminate].
  rewrite (search_run q k' self qv e Hq He) in Hrun. injection Hrun as Hrun _.
  rewrite (search_run q k self qv e Hq He). f_equal.
  unfold top_indices in *. rewrite (slice_to_prefix k k') by assumption.
  now apply comprehension_firstn.
Qed.

(** X2 (never indexed): on a freshly constructed object no search returns:
    it raises the embedder's error when the query cannot be encoded and
    [TypeError] otherwise, for every [top_k]. *)
Theorem search_before_indexing_raises (q : string) (top_k : Z) :
  search q top_k init =
    (Raise (match encode q with Some _ => TypeError | None => EmbeddingError end), init).
Proof.
  unfold search, bind, liftO, get. destruct (encode q); reflexivity.
Qed.

Context {AS : ArgsortSpec C}.




End SearchMore.

Lemma search_smaller_top_k_is_prefix_witness :
  search (C := Stub.stub) "cat" 1 Stub.pets_index =
    (Return (firstn (Z.to_nat 1) [("kitten"%string, 1); ("cat"%string, 1)]),
     Stub.pets_index).
Proof.
  apply (search_smaller_top_k_is_prefix (C := Stub.stub) Stub.pets_index
           Stub.pets_index "cat" 1 2).
  - lia.
  - reflexivity.
Defined.












(** ** [find_most_similar] and [document_similarity] *)

Lemma getitem_in_bounds {A} (l : list A) (i : Z) :
  - Z.of_nat (length l) <= i < Z.of_nat (length l) ->
  exists x, getitem l i = Return x /\
            nth_error l (Z.to_nat (i mod Z.of_nat (length l))) = Some x.
Proof.
  intros Hi. destruct (Z_lt_le_dec i 0) as [Hneg | Hpos].
  - unfold getitem.
    replace ((0 <=? i) && (i <? Z.of_nat (length l))) with false
      by (symmetry; apply andb_false_iff; left; apply Z.leb_gt; lia).
    replace ((- Z.of_nat (length l) <=? i) && (i <? 0)) with true
      by (symmetry; apply andb_true_iff; split; [apply Z.leb_le | apply Z.ltb_lt]; lia).
    replace (i mod Z.of_nat (length l)) with (Z.of_nat (length l) + i).
    + destruct (nth_error l (Z.to_nat (Z.of_nat (length l) + i))) as [x |] eqn:Hx.
      * exists x. split; reflexivity.
      * apply nth_error_None in Hx. lia.
    + apply Z.mod_unique with (q := -1); lia.
  - destruct (getitem_in_range l i ltac:(lia)) as [x [Hget Hnth]].
    exists x. split; [exact Hget |]. rewrite Z.mod_small by lia. exact Hnth.
Qed.

Lemma getitem_returns_in_bounds {A} (l : list A) (i : Z) (x : A) :
  getitem l i = Return x -> - Z.of_nat (length l) <= i < Z.of_nat (length l).
Proof.
  intros Hget.
  destruct (Z_lt_le_dec i (- Z.of_nat (length l))) as [Hlow | Hlow];
    [rewrite getitem_out_of_range in Hget by lia; discriminate |].
  destruct (Z_lt_le_dec i (Z.of_nat (length l))) as [Hup | Hup]; [lia |].
  rewrite getitem_out_of_range in Hget by lia. discriminate.
Qed.

Section FindMostSimilarMore.
Context `{C : Collaborators} {AS : ArgsortSpec C}.

(** What a call with a position inside [-n, n) returns, in terms of the
    list of positions it keeps. *)
Lemma find_most_similar_kept (g : Notebook) (doc_idx top_k : Z) (qe : Vec) :
  getitem (doc_embeddings g) doc_idx = Return qe ->
  exists res,
    find_most_similar doc_idx top_k g = (Return res, g) /\
    Forall2 (fun idx r =>
               fst r = idx /\
               nth_error (map (pytorch_cos_sim qe) (doc_embeddings g)) idx = Some (snd r))
            (slice_to top_k
               (filter (fun idx => negb (Z.of_nat idx =? doc_idx))
                  (reversed (argsort (map (pytorch_cos_sim qe) (doc_embeddings g))))))
            res.
Proof.
  intros Hqe. rewrite (find_most_similar_run doc_idx top_k g qe Hqe).
  set (sims := map (pytorch_cos_sim qe) (doc_embeddings g)).
  set (kept := slice_to top_k _).
  destruct (comprehension_total (index_with_score sims) kept) as [res [Hres Hall]].
  - intros idx Hin. unfold kept in Hin.
    apply slice_to_incl, filter_In in Hin. destruct Hin as [Hin _].
    apply in_rev, argsort_range in Hin.
    destruct (nth_error sims idx) as [sc |] eqn:Es; [| apply nth_error_None in Es; lia].
    exists (idx, sc). now apply index_with_score_returns.
  - exists res. split; [now rewrite Hres |].
    eapply Forall2_impl; [| exact Hall].
    intros idx r Hr. now apply index_with_score_returns.
Qed.

Lemma kept_positions (sims : list Score) (l : list nat) (res : list (nat * Score)) :
  Forall2 (fun idx r => fst r = idx /\ nth_error sims idx = Some (snd r)) l res ->
  map fst res = l.
Proof.
  intros H. symmetry. rewrite <- (map_id l). apply Forall2_map_eq.
  eapply Forall2_impl; [| exact H]. intros idx r [Hr _]. now symmetry.
Qed.

End FindMostSimilarMore.

(** X8 (ranking of neighbours): for a position the subscript accepts,
    [find_most_similar] returns pairs in non-increasing order of score, no
    position twice, and only positions of the corpus. *)
Theorem find_most_similar_ranked `{C : Collaborators} {AS : ArgsortSpec C}
    (g : Notebook) (doc_idx top_k : Z) :
  - Z.of_nat (length (doc_embeddings g)) <= doc_idx < Z.of_nat (length (doc_embeddings g)) ->
  exists res,
    find_most_similar doc_idx top_k g = (Return res, g) /\
    non_increasing res /\
    NoDup (map fst res) /\
    Forall (fun idx => (idx < length (doc_embeddings g))%nat) (map fst res).
Proof.
  intros Hp. destruct (getitem_in_bounds (doc_embeddings g) doc_idx Hp) as [qe [Hqe _]].
  destruct (find_most_similar_kept g doc_idx top_k qe Hqe) as [res [Hrun Hall]].
  set (sims := map (pytorch_cos_sim qe) (doc_embeddings g)) in *.
  exists res. split; [exact Hrun |]. split; [| split].
  - unfold non_increasing.
    eapply (StronglySorted_Forall2 (higher sims)); [| exact Hall |].
    + intros i j r1 r2 Hij [_ H1] [_ H2]. exact (Hij _ _ H1 H2).
    + apply StronglySorted_slice_to, StronglySorted_filter, reversed_argsort_sorted.
  - rewrite (kept_positions sims _ _ Hall).
    apply NoDup_slice_to, NoDup_filter. unfold reversed. apply NoDup_rev, argsort_NoDup.
  - rewrite (kept_positions sims _ _ Hall). apply Forall_forall. intros idx Hin.
    apply slice_to_incl, filter_In in Hin. destruct Hin as [Hin _].
    apply in_rev, argsort_range in Hin. unfold sims in Hin.
    now rewrite length_map in Hin.
Qed.

Lemma find_most_similar_ranked_witness :
  exists res,
    find_most_similar (C := Stub.stub) 1 2 Stub.pets_notebook =
      (Return res, Stub.pets_notebook) /\
    non_increasing res /\
    NoDup (map fst res) /\
    Forall (fun idx => (idx < length (doc_embeddings Stub.pets_notebook))%nat)
           (map fst res).
Proof.
  apply (find_most_similar_ranked (C := Stub.stub) Stub.pets_notebook 1 2).
  simpl. lia.
Defined.

(** X9 (agreement): the score [find_most_similar] reports for a neighbour
    is the value [document_similarity] returns for the queried position and
    that neighbour. *)
Theorem find_most_similar_agrees_with_document_similarity `{C : Collaborators}
    (g g' : Notebook) (doc_idx top_k : Z) (res : list (nat * Score))
    (idx : nat) (sc : Score) :
  find_most_similar doc_idx top_k g = (Return res, g') ->
  In (idx, sc) res ->
  document_similarity doc_idx (Z.of_nat idx) g = (Return sc, g).
Proof.
  intros Hrun Hin.
  destruct (getitem (doc_embeddings g) doc_idx) as [qe | e] eqn:Hqe;
    [| unfold find_most_similar, bind, liftO, get in Hrun; rewrite Hqe in Hrun;
       discriminate].
  rewrite (find_most_similar_run doc_idx top_k g qe Hqe) in Hrun.
  injection Hrun as Hrun _. apply comprehension_returns in Hrun.
  edestruct (@Forall2_In_r nat) as [i [_ Hi]]; [exact Hrun | exact Hin |].
  apply index_with_score_returns in Hi. simpl in Hi. destruct Hi as [<- Hsc].
  rewrite nth_error_map in Hsc.
  destruct (nth_error (doc_embeddings g) idx) as [b |] eqn:Eb; [| discriminate].
  simpl in Hsc. injection Hsc as <-.
  unfold document_similarity, bind, liftO, get, ret. rewrite Hqe.
  rewrite getitem_nat, Eb. reflexivity.
Qed.

Lemma find_most_similar_agrees_with_document_similarity_witness :
  document_similarity (C := Stub.stub) 0 (Z.of_nat 2) Stub.pets_notebook =
    (Return (-1), Stub.pets_notebook).
Proof.
  apply (find_most_similar_agrees_with_document_similarity (C := Stub.stub)
           Stub.pets_notebook Stub.pets_notebook 0 3 [(1%nat, 1); (2%nat, -1)] 2 (-1)).
  - reflexivity.
  - simpl. auto.
Defined.

(** X10 (negative position): for a negative position the subscript accepts,
    the filter removes nothing: a non-negative [top_k] yields
    [min(top_k, corpus size)] pairs, and when [top_k] reaches the corpus
    size the queried document itself is among them. *)
Theorem find_most_similar_negative_position `{C : Collaborators} {AS : ArgsortSpec C}
    (g : Notebook) (doc_idx top_k : Z) :
  - Z.of_nat (length (doc_embeddings g)) <= doc_idx < 0 ->
  0 <= top_k ->
  exists res,
    find_most_similar doc_idx top_k g = (Return res, g) /\
    Z.of_nat (length res) = Z.min top_k (Z.of_nat (length (doc_embeddings g))) /\
    (Z.of_nat (length (doc_embeddings g)) <= top_k ->
     In (Z.to_nat (Z.of_nat (length (doc_embeddings g)) + doc_idx)) (map fst res)).
Proof.
  intros Hp Hk.
  destruct (getitem_in_bounds (doc_embeddings g) doc_idx ltac:(lia)) as [qe [Hqe _]].
  destruct (find_most_similar_kept g doc_idx top_k qe Hqe) as [res [Hrun Hall]].
  set (sims := map (pytorch_cos_sim qe) (doc_embeddings g)) in *.
  assert (Hlen : length sims = length (doc_embeddings g)) by apply length_map.
  rewrite filter_keeps_all in Hall.
  2:{ intros idx _. apply negb_true_iff, Z.eqb_neq. lia. }
  exists res. split; [exact Hrun |]. split.
  - rewrite (Forall2_length_eq _ _ _ Hall), slice_to_length by assumption.
    unfold reversed. now rewrite length_rev, argsort_length, Hlen.
  - intros Hbig. rewrite (kept_positions sims _ _ Hall).
    rewrite slice_to_all
      by (unfold reversed; rewrite length_rev, argsort_length, Hlen; exact Hbig).
    unfold reversed. apply -> in_rev. apply argsort_range. lia.
Qed.

Lemma find_most_similar_negative_position_witness :
  exists res,
    find_most_similar (C := Stub.stub) (-1) 3 Stub.pets_notebook =
      (Return res, Stub.pets_notebook) /\
    Z.of_nat (length res) =
      Z.min 3 (Z.of_nat (length (doc_embeddings Stub.pets_notebook))) /\
    (Z.of_nat (length (doc_embeddings Stub.pets_notebook)) <= 3 ->
     In (Z.to_nat (Z.of_nat (length (doc_embeddings Stub.pets_notebook)) + -1))
        (map fst res)).
Proof.
  apply (find_most_similar_negative_position (C := Stub.stub) Stub.pets_notebook (-1) 3).
  - simpl. lia.
  - lia.
Defined.

(** X11 (all the others): for a position of the corpus and a [top_k] of at
    least the corpus size minus one, every other position is listed. *)
Theorem find_most_similar_lists_all_others `{C : Collaborators} {AS : ArgsortSpec C}
    (g : Notebook) (doc_idx top_k : Z) :
  0 <= doc_idx < Z.of_nat (length (doc_embeddings g)) ->
  Z.of_nat (length (doc_embeddings g)) - 1 <= top_k ->
  exists res,
    find_most_similar doc_idx top_k g = (Return res, g) /\
    forall idx, (idx < length (doc_embeddings g))%nat -> Z.of_nat idx <> doc_idx ->
                In idx (map fst res).
Proof.
  intros Hp Hk.
  destruct (getitem_in_bounds (doc_embeddings g) doc_idx ltac:(lia)) as [qe [Hqe _]].
  destruct (find_most_similar_kept g doc_idx top_k qe Hqe) as [res [Hrun Hall]].
  set (sims := map (pytorch_cos_sim qe) (doc_embeddings g)) in *.
  set (keep := fun idx : nat => negb (Z.of_nat idx =? doc_idx)) in *.
  assert (Hlen : length sims = length (doc_embeddings g)) by apply length_map.
  assert (Hkept : S (length (filter keep (reversed (argsort sims)))) = length sims).
  { rewrite (filter_drops_one keep (Z.to_nat doc_idx)).
    - unfold reversed. now rewrite length_rev, argsort_length.
    - intros a. unfold keep. rewrite negb_false_iff, Z.eqb_eq. lia.
    - apply (Permutation_NoDup (Permutation_rev _)), argsort_NoDup.
    - unfold reversed. apply -> in_rev. apply argsort_range. lia. }
  exists res. split; [exact Hrun |].
  intros idx Hidx Hne. rewrite (kept_positions sims _ _ Hall).
  rewrite slice_to_all by lia.
  apply filter_In. split.
  - unfold reversed. apply -> in_rev. apply argsort_range. lia.
  - unfold keep. apply negb_true_iff, Z.eqb_neq. exact Hne.
Qed.

Lemma find_most_similar_lists_all_others_witness :
  exists res,
    find_most_similar (C := Stub.stub) 0 default_top_k Stub.pets_notebook =
      (Return res, Stub.pets_notebook) /\
    forall idx, (idx < length (doc_embeddings Stub.pets_notebook))%nat ->
                Z.of_nat idx <> 0 -> In idx (map fst res).
Proof.
  apply (find_most_similar_lists_all_others (C := Stub.stub) Stub.pets_notebook 0
           default_top_k).
  - simpl. lia.
  - unfold default_top_k. simpl. lia.
Defined.

Lemma getitem_raises_IndexError {A} (l : list A) (i : Z) (e : exn) :
  getitem l i = Raise e -> e = IndexError.
Proof.
  unfold getitem. intros H.
  destruct ((0 <=? i) && (i <? Z.of_nat (length l))).
  - destruct (nth_error l (Z.to_nat i)); simpl in H; congruence.
  - destruct ((- Z.of_nat (length l) <=? i) && (i <? 0)); [| congruence].
    destruct (nth_error l (Z.to_nat (Z.of_nat (length l) + i))); simpl in H; congruence.
Qed.

Lemma getitem_wraps {A} (l : list A) (i : Z) :
  0 <= i < Z.of_nat (length l) ->
  getitem l (i - Z.of_nat (length l)) = getitem l i.
Proof.
  intros Hi.
  destruct (getitem_in_bounds l i ltac:(lia)) as [x [Hx Hnx]].
  destruct (getitem_in_bounds l (i - Z.of_nat (length l)) ltac:(lia)) as [y [Hy Hny]].
  rewrite Hx, Hy. f_equal.
  replace ((i - Z.of_nat (length l)) mod Z.of_nat (length l))
    with (i mod Z.of_nat (length l)) in Hny.
  - congruence.
  - replace (i - Z.of_nat (length l)) with (i + (-1) * Z.of_nat (length l)) by lia.
    now rewrite Z.mod_add by lia.
Qed.

(** X12 (bounds of [document_similarity]): the call returns exactly when
    both positions lie in [-n, n), [n] the corpus size, and then it is the
    cosine of the two embeddings the positions denote (negative ones
    counted from the end); in every other case it raises [IndexError]. *)
Theorem document_similarity_outcome `{C : Collaborators}
    (g : Notebook) (doc_idx1 doc_idx2 : Z) :
  let n := Z.of_nat (length (doc_embeddings g)) in
  (- n <= doc_idx1 < n /\ - n <= doc_idx2 < n /\
   exists emb1 emb2,
     nth_error (doc_embeddings g) (Z.to_nat (doc_idx1 mod n)) = Some emb1 /\
     nth_error (doc_embeddings g) (Z.to_nat (doc_idx2 mod n)) = Some emb2 /\
     document_similarity doc_idx1 doc_idx2 g = (Return (pytorch_cos_sim emb1 emb2), g))
  \/
  (~ (- n <= doc_idx1 < n /\ - n <= doc_idx2 < n) /\
   document_similarity doc_idx1 doc_idx2 g = (Raise IndexError, g)).
Proof.
  intros n. unfold document_similarity, bind, liftO, get, ret.
  destruct (getitem (doc_embeddings g) doc_idx1) as [emb1 | e1] eqn:H1.
  - pose proof (getitem_returns_in_bounds _ _ _ H1) as Hb1.
    destruct (getitem_in_bounds _ _ Hb1) as [x1 [Hx1 Hn1]].
    destruct (getitem (doc_embeddings g) doc_idx2) as [emb2 | e2] eqn:H2.
    + pose proof (getitem_returns_in_bounds _ _ _ H2) as Hb2.
      destruct (getitem_in_bounds _ _ Hb2) as [x2 [Hx2 Hn2]].
      left. split; [exact Hb1 |]. split; [exact Hb2 |].
      exists emb1, emb2. fold n in Hn1, Hn2.
      split; [congruence |]. split; [congruence | reflexivity].
    + right. rewrite (getitem_raises_IndexError _ _ _ H2). split; [| reflexivity].
      intros [_ Hb2]. destruct (getitem_in_bounds _ _ Hb2) as [x2 [Hx2 _]]. congruence.
  - right. rewrite (getitem_raises_IndexError _ _ _ H1). split; [| reflexivity].
    intros [Hb1 _]. destruct (getitem_in_bounds _ _ Hb1) as [x1 [Hx1 _]]. congruence.
Qed.

(** X13 (counting from the end): a position and the same position minus
    the corpus size give the same similarity, in either argument. *)
Theorem document_similarity_wraps `{C : Collaborators}
    (g : Notebook) (p other : Z) :
  0 <= p < Z.of_nat (length (doc_embeddings g)) ->
  document_similarity (p - Z.of_nat (length (doc_embeddings g))) other g =
    document_similarity p other g /\
  document_similarity other (p - Z.of_nat (length (doc_embeddings g))) g =
    document_similarity other p g.
Proof.
  intros Hp. unfold document_similarity, bind, liftO, get, ret.
  now rewrite (getitem_wraps (doc_embeddings g) p Hp).
Qed.

Lemma document_similarity_wraps_witness :
  document_similarity (C := Stub.stub)
    (2 - Z.of_nat (length (doc_embeddings Stub.pets_notebook))) 0 Stub.pets_notebook =
    document_similarity 2 0 Stub.pets_notebook /\
  document_similarity (C := Stub.stub)
    0 (2 - Z.of_nat (length (doc_embeddings Stub.pets_notebook))) Stub.pets_notebook =
    document_similarity 0 2 Stub.pets_notebook.
Proof.
  apply (document_similarity_wraps (C := Stub.stub) Stub.pets_notebook 2 0).
  simpl. lia.
Defined.

(** X14 (symmetry): when the cosine function is symmetric, so is
    [document_similarity], including the cases that raise. *)
Theorem document_similarity_symmetric `{C : Collaborators}
    (g : Notebook) (doc_idx1 doc_idx2 : Z) :
  (forall a b, pytorch_cos_sim a b = pytorch_cos_sim b a) ->
  document_similarity doc_idx1 doc_idx2 g = document_similarity doc_idx2 doc_idx1 g.
Proof.
  intros Hsym. unfold document_similarity, bind, liftO, get, ret.
  destruct (getitem (doc_embeddings g) doc_idx1) as [emb1 | e1] eqn:H1;
    destruct (getitem (doc_embeddings g) doc_idx2) as [emb2 | e2] eqn:H2;
    try rewrite (getitem_raises_IndexError _ _ _ H1);
    try rewrite (getitem_raises_IndexError _ _ _ H2);
    try reflexivity.
  now rewrite Hsym.
Qed.

Lemma document_similarity_symmetric_witness :
  document_similarity (C := Stub.stub) 0 5 Stub.pets_notebook =
  document_similarity (C := Stub.stub) 5 0 Stub.pets_notebook.
Proof.
  apply (document_similarity_symmetric (C := Stub.stub) Stub.pets_notebook 0 5).
  intros a b. simpl. unfold Stub.stub_cos_sim. lia.
Defined.

(** ** The similarity matrix *)

Section ArrayFacts.
Context {A : Type}.

Lemma length_update (i : nat) (x : A) (l : list A) : length (update i x l) = length l.
Proof.
  revert i. induction l as [| a l IH]; intros [| i]; simpl; auto.
Qed.

Lemma nth_error_update_eq (i : nat) (x : A) (l : list A) :
  (i < length l)%nat -> nth_error (update i x l) i = Some x.
Proof.
  revert i. induction l as [| a l IH]; intros [| i] Hi; simpl in *; try lia.
  - reflexivity.
  - apply IH. lia.
Qed.

Lemma nth_error_update_ne (i j : nat) (x : A) (l : list A) :
  i <> j -> nth_error (update i x l) j = nth_error l j.
Proof.
  revert i j. induction l as [| a l IH]; intros [| i] [| j] Hne; simpl; try reflexivity.
  - congruence.
  - apply IH. congruence.
Qed.

Lemma Forall_update (P : A -> Prop) (i : nat) (x : A) (l : list A) :
  P x -> Forall P l -> Forall P (update i x l).
Proof.
  intros Hx. revert i. induction l as [| a l IH]; intros [| i] Hl; simpl;
    try constructor; inversion Hl; subst; auto.
Qed.

End ArrayFacts.

Lemma set_cell_spec {A} (n : nat) (m : list (list A)) (i j : nat) (v : A) :
  square n m -> (i < n)%nat -> (j < n)%nat ->
  exists m',
    set_cell m i j v = Return m' /\ square n m' /\
    cell m' i j = Some v /\
    forall i' j', i' <> i \/ j' <> j -> cell m' i' j' = cell m i' j'.
Proof.
  intros [Hlen Hrows] Hi Hj. unfold set_cell.
  destruct (nth_error m i) as [row |] eqn:Hrow; [| apply nth_error_None in Hrow; lia].
  assert (Hrowlen : length row = n).
  { rewrite Forall_forall in Hrows. eapply Hrows, nth_error_In, Hrow. }
  replace (j <? length row)%nat with true by (symmetry; apply Nat.ltb_lt; lia).
  exists (update i (update j v row) m). split; [reflexivity |]. split; [| split].
  - split; [now rewrite length_update |].
    apply Forall_update; [now rewrite length_update | assumption].
  - unfold cell. rewrite nth_error_update_eq by lia. apply nth_error_update_eq. lia.
  - intros i' j' Hne. unfold cell. destruct (Nat.eq_dec i' i) as [-> | Hi'].
    + rewrite nth_error_update_eq by lia. rewrite Hrow.
      apply nth_error_update_ne. destruct Hne; congruence.
    + rewrite nth_error_update_ne by congruence. reflexivity.
Qed.

Section MatrixFacts.
Context `{C : Collaborators}.

Lemma matrix_row_filled (embs : list Vec) (n i : nat) (ei : Vec)
    (js : list nat) (m : list (list Score)) :
  length embs = n -> nth_error embs i = Some ei ->
  Forall (fun j => (j < n)%nat) js -> square n m ->
  exists m',
    for_loop (fun m j =>
                obind (getitem embs (Z.of_nat i)) (fun ei =>
                obind (getitem embs (Z.of_nat j)) (fun ej =>
                set_cell m i j (pytorch_cos_sim ei ej)))) js m = Return m' /\
    square n m' /\
    (forall j ej, In j js -> nth_error embs j = Some ej ->
                  cell m' i j = Some (pytorch_cos_sim ei ej)) /\
    (forall i' j', i' <> i \/ ~ In j' js -> cell m' i' j' = cell m i' j').
Proof.
  intros Hlen Hei. revert m. induction js as [| j js IH]; intros m Hjs Hsq.
  - exists m. split; [reflexivity |]. split; [assumption |]. split.
    + intros j ej [].
    + reflexivity.
  - inversion Hjs as [| ? ? Hj Hjs']; subst.
    assert (Hi : (i < length embs)%nat) by (apply nth_error_Some; congruence).
    destruct (nth_error embs j) as [ej |] eqn:Hej; [| apply nth_error_None in Hej; lia].
    destruct (set_cell_spec (length embs) m i j (pytorch_cos_sim ei ej) Hsq Hi Hj)
      as [m1 [Hset [Hsq1 [Hnew Hold]]]].
    destruct (IH m1 Hjs' Hsq1) as [m' [Hrun [Hsq' [Hfilled Hkept]]]].
    assert (Hstep :
      obind (getitem embs (Z.of_nat i)) (fun ei =>
      obind (getitem embs (Z.of_nat j)) (fun ej =>
      set_cell m i j (pytorch_cos_sim ei ej))) = Return m1).
    { rewrite !getitem_nat, Hei, Hej. simpl. exact Hset. }
    exists m'. split.
    + cbn [for_loop]. rewrite Hstep. exact Hrun.
    + split; [assumption |]. split.
      * intros j0 ej0 Hin Hej0. destruct (in_dec Nat.eq_dec j0 js) as [Hin' | Hnot].
        -- now apply Hfilled.
        -- destruct Hin as [<- | Hin]; [| contradiction].
           rewrite Hkept by (now right). congruence.
      * intros i' j' Hne. rewrite Hkept.
        -- apply Hold. destruct Hne as [Hne | Hne]; [now left |].
           right. intros ->. apply Hne. now left.
        -- destruct Hne as [Hne | Hne]; [now left |].
           right. intros Hin. apply Hne. now right.
Qed.

Lemma matrix_rows_filled (embs : list Vec) (n : nat)
    (rows : list nat) (m : list (list Score)) :
  length embs = n -> Forall (fun i => (i < n)%nat) rows -> square n m ->
  exists m',
    for_loop (fun m i => matrix_row_loop embs n i m) rows m = Return m' /\
    square n m' /\
    (forall i j ei ej, In i rows ->
       nth_error embs i = Some ei -> nth_error embs j = Some ej ->
       cell m' i j = Some (pytorch_cos_sim ei ej)) /\
    (forall i' j', ~ In i' rows -> cell m' i' j' = cell m i' j').
Proof.
  intros Hlen. revert m. induction rows as [| i rows IH]; intros m Hrows Hsq.
  - exists m. split; [reflexivity |]. split; [assumption |]. split.
    + intros i j ei ej [].
    + reflexivity.
  - inversion Hrows as [| ? ? Hi Hrows']; subst.
    destruct (nth_error embs i) as [ei |] eqn:Hei; [| apply nth_error_None in Hei; lia].
    destruct (matrix_row_filled embs (length embs) i ei (seq 0 (length embs)) m
                eq_refl Hei) as [m1 [Hrow [Hsq1 [Hfilled1 Hkept1]]]]; [| assumption |].
    { apply Forall_forall. intros j Hj. apply in_seq in Hj. lia. }
    destruct (IH m1 Hrows' Hsq1) as [m' [Hrun [Hsq' [Hfilled Hkept]]]].
    exists m'. split.
    + cbn [for_loop]. unfold matrix_row_loop at 1. rewrite Hrow. exact Hrun.
    + split; [assumption |]. split.
      * intros i0 j ei0 ej Hin Hei0 Hej.
        destruct (in_dec Nat.eq_dec i0 rows) as [Hin' | Hnot].
        -- now apply (Hfilled i0 j ei0 ej).
        -- destruct Hin as [<- | Hin]; [| contradiction].
           rewrite Hkept by assumption.
           assert (ei0 = ei) by congruence. subst ei0.
           apply Hfilled1; [| assumption].
           apply in_seq. assert (j < length embs)%nat by (apply nth_error_Some; congruence).
           lia.
      * intros i' j' Hnot. rewrite Hkept.
        -- apply Hkept1. left. intros ->. apply Hnot. now left.
        -- intros Hin. apply Hnot. now right.
Qed.

Lemma square_zeros (zero : Score) (n : nat) : square n (repeat (repeat zero n) n).
Proof.
  split; [apply repeat_length |].
  apply Forall_forall. intros row Hrow. apply repeat_spec in Hrow. subst row.
  apply repeat_length.
Qed.

End MatrixFacts.

(** X15 (similarity matrix): with one embedding per sentence, the nested
    loop ends without error, the array is still [n] by [n], and every cell
    [(i, j)] holds the cosine of embedding [i] and embedding [j]: no initial
    zero is left. *)
Theorem similarity_matrix_filled `{C : Collaborators}
    (zero : Score) (n : nat) (embs : list Vec) :
  length embs = n ->
  exists m,
    similarity_matrix zero n embs = Return m /\
    square n m /\
    forall i j ei ej,
      nth_error embs i = Some ei -> nth_error embs j = Some ej ->
      cell m i j = Some (pytorch_cos_sim ei ej).
Proof.
  intros Hlen.
  destruct (matrix_rows_filled embs n (seq 0 n) (repeat (repeat zero n) n) Hlen)
    as [m [Hrun [Hsq [Hfilled _]]]].
  - apply Forall_forall. intros i Hi. apply in_seq in Hi. lia.
  - apply square_zeros.
  - exists m. split; [exact Hrun |]. split; [exact Hsq |].
    intros i j ei ej Hei Hej. apply (Hfilled i j ei ej); [| assumption | assumption].
    apply in_seq. assert (i < length embs)%nat by (apply nth_error_Some; congruence). lia.
Qed.

Lemma similarity_matrix_filled_witness :
  exists m,
    similarity_matrix (C := Stub.stub) 0 3 [2; 5; -1] = Return m /\
    square 3 m /\
    forall i j ei ej,
      nth_error [2; 5; -1] i = Some ei -> nth_error [2; 5; -1] j = Some ej ->
      cell m i j = Some (Stub.stub_cos_sim ei ej).
Proof.
  apply (similarity_matrix_filled (C := Stub.stub) 0 3 [2; 5; -1]).
  reflexivity.
Defined.

(** ** The document list and the example around [find_most_similar] *)

Lemma fold_left_append {A B} (f : A -> B) (l : list A) (acc : list B) :
  fold_left (fun acc a => acc ++ [f a]) l acc = acc ++ map f l.
Proof.
  revert acc. induction l as [| a l IH]; intros acc; simpl.
  - now rewrite app_nil_r.
  - rewrite IH, <- app_assoc. reflexivity.
Qed.

Lemma prefix_append (s t : string) : String.prefix s (s ++ t) = true.
Proof.
  induction s as [| c s IH]; simpl.
  - now destruct t.
  - destruct (ascii_dec c c) as [_ | Hne]; [exact IH | congruence].
Qed.

Lemma build_documents_map (sample_articles : list Article) :
  build_documents sample_articles =
  map (fun a => (title a ++ ". " ++ content a)%string) sample_articles.
Proof.
  unfold build_documents.
  now rewrite (fold_left_append (fun a => (title a ++ ". " ++ content a)%string)).
Qed.

(** X16 (document list): the loop over [sample_articles] leaves one
    document per article, in the order of the articles; the document at a
    position is the article's title, then [". "], then its content, so it
    starts with the title. *)
Theorem build_documents_per_article (sample_articles : list Article) :
  length (build_documents sample_articles) = length sample_articles /\
  forall i article,
    nth_error sample_articles i = Some article ->
    nth_error (build_documents sample_articles) i =
      Some (title article ++ ". " ++ content article)%string /\
    exists doc,
      nth_error (build_documents sample_articles) i = Some doc /\
      String.prefix (title article) doc = true.
Proof.
  rewrite build_documents_map.
  split; [apply length_map |].
  intros i article Hi.
  assert (Hdoc : nth_error
                   (map (fun a => (title a ++ ". " ++ content a)%string) sample_articles) i
                 = Some (title article ++ ". " ++ content article)%string).
  { rewrite nth_error_map, Hi. reflexivity. }
  split; [exact Hdoc |].
  eexists. split; [exact Hdoc | apply prefix_append].
Qed.

Section ExampleFacts.
Context `{C : Collaborators} {AS : ArgsortSpec C}.

Lemma load_notebook_returns (sample_articles : list Article) (g : Notebook) :
  load_notebook sample_articles = Return g ->
  nb_documents g = build_documents sample_articles /\
  encode_batch (build_documents sample_articles) = Some (doc_embeddings g) /\
  length (doc_embeddings g) = length sample_articles.
Proof.
  unfold load_notebook. intros H.
  destruct (encode_batch (build_documents sample_articles)) as [e |] eqn:He;
    [| discriminate].
  simpl in H. injection H as <-. simpl. split; [reflexivity |]. split; [reflexivity |].
  rewrite (encode_batch_length _ _ He), build_documents_map.
  apply length_map.
Qed.

(** The neighbours of a position of the corpus: their number, and where
    they lie. *)
Lemma find_most_similar_neighbours (g : Notebook) (doc_idx top_k : Z) :
  0 <= doc_idx < Z.of_nat (length (doc_embeddings g)) -> 0 <= top_k ->
  exists res,
    find_most_similar doc_idx top_k g = (Return res, g) /\
    Z.of_nat (length res) = Z.min top_k (Z.of_nat (length (doc_embeddings g)) - 1) /\
    Forall (fun r => (fst r < length (doc_embeddings g))%nat /\
                     Z.of_nat (fst r) <> doc_idx) res.
Proof.
  intros Hp Hk.
  destruct (getitem_in_bounds (doc_embeddings g) doc_idx ltac:(lia)) as [qe [Hqe _]].
  destruct (find_most_similar_kept g doc_idx top_k qe Hqe) as [res [Hrun Hall]].
  set (sims := map (pytorch_cos_sim qe) (doc_embeddings g)) in *.
  set (keep := fun idx : nat => negb (Z.of_nat idx =? doc_idx)) in *.
  assert (Hlen : length sims = length (doc_embeddings g)) by apply length_map.
  assert (Hkept : S (length (filter keep (reversed (argsort sims)))) = length sims).
  { rewrite (filter_drops_one keep (Z.to_nat doc_idx)).
    - unfold reversed. now rewrite length_rev, argsort_length.
    - intros a. unfold keep. rewrite negb_false_iff, Z.eqb_eq. lia.
    - apply (Permutation_NoDup (Permutation_rev _)), argsort_NoDup.
    - unfold reversed. apply -> in_rev. apply argsort_range. lia. }
  exists res. split; [exact Hrun |]. split.
  - rewrite (Forall2_length_eq _ _ _ Hall), slice_to_length by assumption. lia.
  - apply Forall_forall. intros r Hr.
    assert (Hin : In (fst r) (map fst res)) by now apply in_map.
    rewrite (kept_positions sims _ _ Hall) in Hin.
    apply slice_to_incl, filter_In in Hin. destruct Hin as [Hin Hkeep].
    apply in_rev, argsort_range in Hin. split; [lia |].
    unfold keep in Hkeep. now apply negb_true_iff, Z.eqb_neq in Hkeep.
Qed.

End ExampleFacts.

(** X17 (the example runs): once the globals are built from
    [sample_articles], the example for any position of the list runs
    without error: every index [find_most_similar] returns is a valid
    subscript of [sample_articles].  It prints the example's title and
    [min(3, number of articles - 1)] lines, each the title of another
    article. *)
Theorem example_usage_runs `{C : Collaborators} {AS : ArgsortSpec C}
    (sample_articles : list Article) (g : Notebook) (example_idx : Z) :
  load_notebook sample_articles = Return g ->
  0 <= example_idx < Z.of_nat (length sample_articles) ->
  exists example lines,
    nth_error sample_articles (Z.to_nat example_idx) = Some example /\
    example_usage sample_articles example_idx g = (Return (title example, lines), g) /\
    Z.of_nat (length lines) = Z.min 3 (Z.of_nat (length sample_articles) - 1) /\
    Forall (fun line => exists idx a,
                Z.of_nat idx <> example_idx /\
                nth_error sample_articles idx = Some a /\ fst line = title a) lines.
Proof.
  intros Hload Hidx.
  destruct (load_notebook_returns _ _ Hload) as [_ [_ Hlen]].
  destruct (getitem_in_range sample_articles example_idx Hidx) as [example [Hget Hnth]].
  destruct (find_most_similar_neighbours g example_idx default_top_k)
    as [res [Hrun [Hcount Hres]]]; [lia | unfold default_top_k; lia |].
  set (line_of := fun p : nat * Score =>
                    obind (getitem sample_articles (Z.of_nat (fst p)))
                          (fun a => Return (title a, snd p))).
  destruct (comprehension_total line_of res) as [lines [Hlines Hall]].
  { intros p Hp. rewrite Forall_forall in Hres. destruct (Hres p Hp) as [Hlt _].
    unfold line_of. rewrite getitem_nat.
    destruct (nth_error sample_articles (fst p)) as [a |] eqn:Ha;
      [| apply nth_error_None in Ha; lia].
    simpl. eauto. }
  exists example, lines. split; [exact Hnth |]. split; [| split].
  - unfold example_usage, bind, liftO, ret. rewrite Hget, Hrun.
    fold line_of. now rewrite Hlines.
  - rewrite (Forall2_length_eq _ _ _ Hall), Hcount, Hlen. reflexivity.
  - apply Forall_forall. intros line Hline.
    edestruct (@Forall2_In_r (nat * Score)) as [p [Hp Hpl]];
      [exact Hall | exact Hline |].
    rewrite Forall_forall in Hres. destruct (Hres p Hp) as [_ Hne].
    unfold line_of in Hpl. rewrite getitem_nat in Hpl.
    destruct (nth_error sample_articles (fst p)) as [a |] eqn:Ha; [| discriminate].
    simpl in Hpl. injection Hpl as <-. exists (fst p), a. auto.
Qed.

Lemma example_usage_runs_witness :
  exists example lines,
    nth_error StubData.articles (Z.to_nat 0) = Some example /\
    example_usage (C := Stub.stub) StubData.articles 0 StubData.articles_notebook =
      (Return (title example, lines), StubData.articles_notebook) /\
    Z.of_nat (length lines) = Z.min 3 (Z.of_nat (length StubData.articles) - 1) /\
    Forall (fun line => exists idx a,
                Z.of_nat idx <> 0 /\
                nth_error StubData.articles idx = Some a /\ fst line = title a) lines.
Proof.
  apply (example_usage_runs (C := Stub.stub) StubData.articles
           StubData.articles_notebook 0).
  - reflexivity.
  - simpl. lia.
Defined.

(** ** The loop over the test queries *)

Section QueryLoopFacts.
Context `{C : Collaborators}.



End QueryLoopFacts.






